(** * ditherphile: grayscale conversion and error-diffusion dithering

    A shallow embedding of [main.go] (package [main]) together with the
    parts of Go's [image] and [image/color] packages that the program
    calls, followed by the properties of the program that the
    specification states.

    Conventions.
    - Go's [int], [uint8] and [uint32] values are integers in [Z]; every
      conversion that can wrap is written with an explicit [mod].
    - Go's [float64] is Rocq's primitive binary64 float, so products and
      differences are computed bit for bit as the hardware does.
    - A run-time panic is a value: computations live in the monad [M],
      which also records the coordinates of every pixel store that the
      program issues on a gray image. *)

From Stdlib Require Import ZArith Lia Bool Ascii String.
From Stdlib Require Floats.PrimFloat Floats.FloatOps Floats.SpecFloat.
From Stdlib Require Numbers.Cyclic.Int63.Uint63.
From stdpp Require Import base list list_numbers.

Local Open Scope Z_scope.

(** ** Machine integers *)

Definition MaxInt : Z := 2 ^ 63 - 1.
Definition MaxUint8 : Z := 255.

(** The runtime's [maxAlloc] on amd64: the largest number of bytes one
    allocation may ask for. *)
Definition maxAlloc : Z := 2 ^ 48.

(** [int(z)]: two's complement wrap-around at 64 bits. *)
Definition int (z : Z) : Z := (z + 2 ^ 63) mod 2 ^ 64 - 2 ^ 63.
(** [uint8(z)] and [uint32(z)]: the low 8 and 32 bits. *)
Definition uint8 (z : Z) : Z := z mod 256.
Definition uint32 (z : Z) : Z := z mod 2 ^ 32.

(** ** float64 *)

Definition float64 : Set := PrimFloat.float.

(** Conversion of an integer (constant or variable) to [float64]; exact
    for the 8-bit values and the constants the program converts. *)
Definition float64_of_Z (z : Z) : float64 :=
  if z <? 0
  then PrimFloat.opp (PrimFloat.of_uint63 (Uint63.of_Z (- z)))
  else PrimFloat.of_uint63 (Uint63.of_Z z).

(** [int(f)] for a [float64]: the fraction is discarded (truncation
    toward zero).  Go leaves the result open when the value does not fit;
    the model returns what amd64 returns there, the smallest [int]. *)
Definition int_of_float64 (f : float64) : Z :=
  match FloatOps.Prim2SF f with
  | SpecFloat.S754_zero _ => 0
  | SpecFloat.S754_finite s m e =>
      let mag := if e <? 0 then Z.shiftr (Z.pos m) (- e)
                 else Z.shiftl (Z.pos m) e in
      let v := if s then - mag else mag in
      if (- 2 ^ 63 <=? v) && (v <=? MaxInt) then v else - 2 ^ 63
  | _ => - 2 ^ 63
  end.

(** ** Panics and the store log *)

Inductive result (A : Type) : Type :=
| Ok (a : A)
| Panic (msg : string).
Arguments Ok {A} a.
Arguments Panic {A} msg.

(** A computation yields the coordinates it stored to, in order, and its
    result or the panic that stopped it. *)
Definition M (A : Type) : Type := list (Z * Z) * result A.

Definition ret {A} (a : A) : M A := ([], Ok a).
Definition panic {A} (msg : string) : M A := ([], Panic msg).
Definition tell (x y : Z) : M unit := ([(x, y)], Ok tt).
Definition bind {A B} (m : M A) (k : A -> M B) : M B :=
  match m with
  | (w, Ok a) => let '(w', r) := k a in (w ++ w', r)
  | (w, Panic msg) => (w, Panic msg)
  end.

Notation "x <- m ;; k" := (bind m (fun x => k))
  (at level 100, m at next level, right associativity, only parsing).
Notation "m ;;; k" := (bind m (fun _ => k))
  (at level 100, k at level 200, right associativity, only parsing).

Definition writes {A} (m : M A) : list (Z * Z) := fst m.
Definition outcome {A} (m : M A) : result A := snd m.

Fixpoint foldM {A B} (body : B -> A -> M A) (l : list B) (a : A) : M A :=
  match l with
  | [] => ret a
  | i :: l' => a' <- body i a ;; foldM body l' a'
  end.

(** [for i := lo; i < hi; i++ { a = body i a }] *)
Definition for_lt {A} (lo hi : Z) (body : Z -> A -> M A) (a : A) : M A :=
  foldM body (seqZ lo (hi - lo)) a.

(** [s[i]] on a slice: an index outside the slice panics. *)
Definition index {A} (s : list A) (i : Z) : M A :=
  if i <? 0 then panic "index out of range"
  else match s !! Z.to_nat i with
       | Some v => ret v
       | None => panic "index out of range"
       end.

(** [s[i] = v] on a slice. *)
Definition store {A} (s : list A) (i : Z) (v : A) : M (list A) :=
  if i <? 0 then panic "index out of range"
  else if i <? Z.of_nat (length s) then ret (<[Z.to_nat i := v]> s)
  else panic "index out of range".

(** [make([]uint8, n)]: a zeroed slice.  The runtime's [makeslice] panics
    when [n] is negative or above [maxAlloc].  Running out of physical
    memory below that limit is a fatal error of the runtime that depends
    on the machine; it is outside the model. *)
Definition make_uint8 (n : Z) : M (list Z) :=
  if (n <? 0) || (maxAlloc <? n) then panic "makeslice: len out of range"
  else ret (replicate (Z.to_nat n) 0).

(** ** Package image/color *)

Module color.

Record Gray : Set := mkGray { Y : Z }.

(** The dynamic types of [color.Color] the model covers: 8-bit gray, and
    8-bit RGBA with and without premultiplied alpha.  The other pixel
    types the decoders produce (YCbCr, CMYK, 16-bit colours) are not
    modelled. *)
Inductive Color : Set :=
| OfGray (c : Gray)
| OfRGBA (R G B A : Z)
| OfNRGBA (R G B A : Z).

(** [x |= x << 8] on a [uint32]. *)
Definition widen (c : Z) : Z :=
  let x := uint32 c in Z.lor x (uint32 (Z.shiftl x 8)).

(** Method [RGBA()]: 16-bit alpha-premultiplied channels. *)
Definition RGBA (c : Color) : Z * Z * Z * Z :=
  match c with
  | OfGray g => let y := widen (Y g) in (y, y, y, 65535)
  | OfRGBA r g b a => (widen r, widen g, widen b, widen a)
  | OfNRGBA r g b a =>
      let pre c := uint32 (widen c * uint32 a) / 255 in
      (pre r, pre g, pre b, widen a)
  end.

(** [GrayModel.Convert]. *)
Definition grayModel (c : Color) : Color :=
  match c with
  | OfGray _ => c
  | _ =>
      let '(r, g, b, _) := RGBA c in
      let y := Z.shiftr
                 (uint32 (19595 * r + 38470 * g + 7471 * b + Z.shiftl 1 15))
                 24 in
      OfGray (mkGray (uint8 y))
  end.

(** The type assertion [c.(color.Gray)]. *)
Definition assertGray (c : Color) : M Gray :=
  match c with
  | OfGray g => ret g
  | _ => panic "interface conversion: color.Color is not color.Gray"
  end.

End color.

(** ** Package image *)

Module image.

Record Point : Set := mkPoint { X : Z; Y : Z }.
Record Rectangle : Set := mkRectangle { Min : Point; Max : Point }.

(** [r.Dx()] and [r.Dy()].  Coordinates are Go [int]s; for the
    rectangles considered below, which start at the origin, the
    subtraction cannot wrap. *)
Definition Dx (r : Rectangle) : Z := X (Max r) - X (Min r).
Definition Dy (r : Rectangle) : Z := Y (Max r) - Y (Min r).

(** [p.In(r)] *)
Definition In (p : Point) (r : Rectangle) : bool :=
  (X (Min r) <=? X p) && (X p <? X (Max r)) &&
  (Y (Min r) <=? Y p) && (Y p <? Y (Max r)).

(** The interface [image.Image], as far as the program reads it. *)
Class Image (I : Type) : Type := {
  Bounds : I -> Rectangle;
  At : I -> Z -> Z -> color.Color
}.

(** [*image.Gray] *)
Record Gray : Set := mkGray {
  Pix : list Z;
  Stride : Z;
  Rect : Rectangle
}.

Definition withPix (p : Gray) (pix : list Z) : Gray :=
  {| Pix := pix; Stride := Stride p; Rect := Rect p |}.

(** [pixelBufferLength(1, r, "Gray")]: the number of samples; panics on
    a negative side and on a product that does not fit an [int]. *)
Definition pixelBufferLength (r : Rectangle) : M Z :=
  let w := Dx r in
  let h := Dy r in
  if (w <? 0) || (h <? 0) || (MaxInt <? w * h)
  then panic "image: NewGray Rectangle has huge or negative dimensions"
  else ret (w * h).

(** [NewGray(r)]: a zeroed buffer of [pixelBufferLength] samples. *)
Definition NewGray (r : Rectangle) : M Gray :=
  n <- pixelBufferLength r ;;
  pix <- make_uint8 n ;;
  ret {| Pix := pix; Stride := Dx r; Rect := r |}.

Definition Gray_Bounds (p : Gray) : Rectangle := Rect p.

Definition PixOffset (p : Gray) (x y : Z) : Z :=
  (y - Y (Min (Rect p))) * Stride p + (x - X (Min (Rect p))) * 1.

Definition GrayAt (p : Gray) (x y : Z) : M color.Gray :=
  if negb (In (mkPoint x y) (Rect p)) then ret (color.mkGray 0)
  else
    let i := PixOffset p x y in
    v <- index (Pix p) i ;;
    ret (color.mkGray v).

Definition Gray_At (p : Gray) (x y : Z) : M color.Color :=
  g <- GrayAt p x y ;; ret (color.OfGray g).

(** [p.SetGray(x, y, c)]; the call is logged whether or not the point
    lies in the rectangle. *)
Definition SetGray (p : Gray) (x y : Z) (c : color.Gray) : M Gray :=
  tell x y ;;;
  if negb (In (mkPoint x y) (Rect p)) then ret p
  else
    let i := PixOffset p x y in
    pix <- store (Pix p) i (color.Y c) ;;
    ret (withPix p pix).

(** [p.Set(x, y, c)] *)
Definition Gray_Set (p : Gray) (x y : Z) (c : color.Color) : M Gray :=
  tell x y ;;;
  if negb (In (mkPoint x y) (Rect p)) then ret p
  else
    let i := PixOffset p x y in
    g <- color.assertGray (color.grayModel c) ;;
    pix <- store (Pix p) i (color.Y g) ;;
    ret (withPix p pix).

End image.

(** ** Package main *)

(** Untyped constants: [1 / 16] is a quotient of integer constants. *)
Definition threshold : Z := 127.
Definition oneSixteenth : Z := 1 ÷ 16.
Definition threeSixteenths : Z := 3 ÷ 16.
Definition fiveSixteenths : Z := 5 ÷ 16.
Definition sevenSixteenths : Z := 7 ÷ 16.

(** A method call through an interface value; [None] is the nil
    interface. *)
Definition deref {I} (img : option I) : M I :=
  match img with
  | Some i => ret i
  | None => panic "invalid memory address or nil pointer dereference"
  end.

Definition imageToGrayscale {I} `{image.Image I} (img : option I)
  : M image.Gray :=
  i <- deref img ;;
  let bounds := image.Bounds i in
  result <- image.NewGray bounds ;;
  for_lt 0 (image.X (image.Max bounds)) (fun x result =>
    for_lt 0 (image.Y (image.Max bounds)) (fun y result =>
      image.Gray_Set result x y (color.grayModel (image.At i x y)))
      result)
    result.

Definition addErrorContrib (img : image.Gray) (x y : Z)
    (errVal perc : float64) : M image.Gray :=
  c <- image.Gray_At img x y ;;
  g <- color.assertGray c ;;
  image.SetGray img x y
    (color.mkGray
       (uint8 (int (color.Y g + int_of_float64 (PrimFloat.mul errVal perc))))).

(** The body of the inner loop, for the pixel [(x, y)]. *)
Definition ditherPixel (low high xLim yLim : Z) (img : image.Gray)
    (x y : Z) : M image.Gray :=
  c <- image.Gray_At img x y ;;
  g <- color.assertGray c ;;
  let pixVal := color.Y g in
  let dithVal := if pixVal >? threshold then high else low in
  img <- image.SetGray img x y (color.mkGray dithVal) ;;
  let dithErr :=
    PrimFloat.sub (float64_of_Z pixVal) (float64_of_Z dithVal) in
  img <- (if x <? xLim then
            img <- addErrorContrib img (x + 1) y dithErr
                     (float64_of_Z sevenSixteenths) ;;
            if y <? yLim then
              addErrorContrib img (x + 1) (y + 1) dithErr
                (float64_of_Z oneSixteenth)
            else ret img
          else ret img) ;;
  if y <? yLim then
    img <- addErrorContrib img x (y + 1) dithErr
             (float64_of_Z fiveSixteenths) ;;
    if x >? 0 then
      addErrorContrib img (x - 1) (y + 1) dithErr
        (float64_of_Z threeSixteenths)
    else ret img
  else ret img.

Definition sentinels (invert : bool) : Z * Z :=
  let low := 0 in
  let high := MaxUint8 in
  if invert then (high, low) else (low, high).

Definition errorDiffusionDither (img : image.Gray) (invert : bool)
  : M image.Gray :=
  let width := image.X (image.Max (image.Gray_Bounds img)) in
  let height := image.Y (image.Max (image.Gray_Bounds img)) in
  let xLim := width - 1 in
  let yLim := height - 1 in
  let '(low, high) := sentinels invert in
  for_lt 0 height (fun y img =>
    for_lt 0 width (fun x img =>
      ditherPixel low high xLim yLim img x y) img) img.

(** *** The command: flags, files and the exit status *)

Record config : Set := mkConfig {
  inFile : string;
  outFile : string;
  invert : bool
}.

(** What [flag.Parse] leaves behind when it returns: the values of [-o]
    and [-i] and the positional arguments.  [buildConfigFromArgs] and
    [main] below are the program from that point on; the runs that end
    inside [flag.Parse] are in [program]. *)
Record flags : Set := mkFlags {
  flag_o : string;
  flag_i : bool;
  flag_args : list string
}.

(** What a run does that is visible from outside. *)
Inductive event : Type :=
| FprintlnFlagOutput (msg : string)
| FlagUsage
| FprintlnStderr (msg : string)
| SaveImage (img : image.Gray) (file format : string).

(** How [main] ends. *)
Inductive ending : Set :=
| Returned
| Exited (code : Z)
| Panicked (msg : string).

(** The exit status of the process: 0 when [main] returns, the argument
    of [os.Exit], and 2 when the Go runtime stops on a panic. *)
Definition exitStatus (e : ending) : Z :=
  match e with
  | Returned => 0
  | Exited code => code
  | Panicked _ => 2
  end.

Definition isSaveImage (e : event) : bool :=
  match e with
  | SaveImage _ _ _ => true
  | _ => false
  end.

(** The file system and the codecs are outside the program: a run is
    relative to what they answer. *)
Record System (I : Type) : Type := mkSystem {
  Reader : Type;
  Writer : Type;
  filepath_Ext : string -> string;
  os_Open : string -> Reader + string;
  os_Create : string -> Writer + string;
  image_Decode : Reader -> option I * string * option string;
  gif_Encode : Writer -> image.Gray -> option string;
  jpeg_Encode : Writer -> image.Gray -> option string;
  png_Encode : Writer -> image.Gray -> option string
}.
Arguments Reader {I} s.
Arguments Writer {I} s.
Arguments filepath_Ext {I} s _.
Arguments os_Open {I} s _.
Arguments os_Create {I} s _.
Arguments image_Decode {I} s _.
Arguments gif_Encode {I} s _ _.
Arguments jpeg_Encode {I} s _ _.
Arguments png_Encode {I} s _ _.

Section Command.

Context {I : Type} {Img : image.Image I}.
Variable sys : System I.

Definition buildConfigFromArgs (f : flags) : option config * option string :=
  let outFile := flag_o f in
  let invert := flag_i f in
  match flag_args f with
  | [] => (None, Some "no input image specified"%string)
  | inFile :: _ =>
      let outFile :=
        if (String.length (filepath_Ext sys outFile) =? 0)%nat
        then (outFile ++ filepath_Ext sys inFile)%string
        else outFile in
      (Some (mkConfig inFile outFile invert), None)
  end.

Definition loadImage (file : string) : option I * string * option string :=
  match os_Open sys file with
  | inr err => (None, ""%string, Some err)
  | inl reader => image_Decode sys reader
  end.

Definition saveImage (img : image.Gray) (file format : string)
  : option string :=
  match os_Create sys file with
  | inr err => Some err
  | inl writer =>
      if String.eqb format "gif" then gif_Encode sys writer img
      else if String.eqb format "jpeg" then jpeg_Encode sys writer img
      else if String.eqb format "png" then png_Encode sys writer img
      else Some ("unknown image format Â» " ++ format)%string
  end.

Definition main (f : flags) : list event * ending :=
  match buildConfigFromArgs f with
  | (_, Some err) => ([FprintlnFlagOutput err; FlagUsage], Exited 1)
  | (None, None) =>
      ([], Panicked "invalid memory address or nil pointer dereference")
  | (Some cfg, None) =>
      let '(inImg, inFormat, err) := loadImage (inFile cfg) in
      let reported :=
        match err with
        | Some e => [FprintlnStderr e]
        | None => []
        end in
      match outcome (grayImg <- imageToGrayscale inImg ;;
                     errorDiffusionDither grayImg (invert cfg)) with
      | Panic msg => (reported, Panicked msg)
      | Ok grayImg =>
          match saveImage grayImg (outFile cfg) inFormat with
          | Some e =>
              (reported ++ [SaveImage grayImg (outFile cfg) inFormat;
                            FprintlnStderr e], Exited 1)
          | None =>
              (reported ++ [SaveImage grayImg (outFile cfg) inFormat],
               Returned)
          end
      end
  end.

End Command.

(** How [flag.Parse] disposes of the command line.  The flag set exits
    on error: asked for help ([-h], [-help]) it prints the usage and
    exits with status 0; on a malformed or unknown flag it prints the
    error and the usage and exits with status 2; otherwise it returns
    with the flags set. *)
Inductive parsing : Set :=
| HelpRequested
| BadFlag (msg : string)
| Parsed (f : flags).

(** A whole run: [main], with the exits [flag.Parse] takes inside
    [buildConfigFromArgs]. *)
Definition program {I} {Img : image.Image I} (sys : System I)
    (cmdline : parsing) : list event * ending :=
  match cmdline with
  | HelpRequested => ([FlagUsage], Exited 0)
  | BadFlag msg => ([FprintlnFlagOutput msg; FlagUsage], Exited 2)
  | Parsed f => main sys f
  end.

(** ** Vocabulary of the specification *)

(** A luminance buffer of extent [W] by [H]: origin at (0,0), one sample
    per pixel in row-major order, every sample an 8-bit value. *)
Record luminance (p : image.Gray) : Prop := mkLuminance {
  lum_min : image.Min (image.Rect p) = image.mkPoint 0 0;
  lum_width : 0 <= image.X (image.Max (image.Rect p));
  lum_height : 0 <= image.Y (image.Max (image.Rect p));
  lum_stride : image.Stride p = image.X (image.Max (image.Rect p));
  lum_length :
    Z.of_nat (length (image.Pix p)) =
    image.X (image.Max (image.Rect p)) * image.Y (image.Max (image.Rect p));
  lum_range : Forall (fun v => 0 <= v < 256) (image.Pix p)
}.

Definition width (p : image.Gray) : Z := image.X (image.Max (image.Rect p)).
Definition height (p : image.Gray) : Z := image.Y (image.Max (image.Rect p)).

(** The stores that the step for pixel [(x, y)] may issue: the pixel
    itself, and each neighbour under its guard. *)
Definition guardedStore (W H x y : Z) (pt : Z * Z) : Prop :=
  let '(a, b) := pt in
  (a = x /\ b = y) \/
  (a = x + 1 /\ b = y /\ x + 1 < W) \/
  (a = x + 1 /\ b = y + 1 /\ x + 1 < W /\ y + 1 < H) \/
  (a = x /\ b = y + 1 /\ y + 1 < H) \/
  (a = x - 1 /\ b = y + 1 /\ 0 <= x - 1 /\ y + 1 < H).

(** Where the sample of [(x, y)] sits in [Pix]. *)
Definition offset (p : image.Gray) (x y : Z) : nat :=
  Z.to_nat (y * width p + x).

(** The point [(x, y)] lies in [[0,W) x [0,H)]. *)
Definition inExtent (W H : Z) (pt : Z * Z) : Prop :=
  0 <= fst pt < W /\ 0 <= snd pt < H.

(** The sample of [p] at [(x, y)], when the read does not panic. *)
Definition sample (p : image.Gray) (x y : Z) : option Z :=
  match outcome (image.GrayAt p x y) with
  | Ok g => Some (color.Y g)
  | Panic _ => None
  end.

(** The two output levels: [low] and [high]. *)
Definition low (invert : bool) : Z := fst (sentinels invert).
Definition high (invert : bool) : Z := snd (sentinels invert).

(** The pointwise threshold map: [high] above the threshold, else [low]. *)
Definition quantize (invert : bool) (v : Z) : Z :=
  if v >? threshold then high invert else low invert.

Definition thresholdMap (invert : bool) (p : image.Gray) : image.Gray :=
  image.withPix p (quantize invert <$> image.Pix p).

(** The buffer after the first [n] samples, in row-major order, have been
    quantized. *)
Definition quantizedUpTo (invert : bool) (p : image.Gray) (n : nat)
  : image.Gray :=
  image.withPix p
    ((quantize invert <$> take n (image.Pix p)) ++ drop n (image.Pix p)).



(** Swapping 0 and 255 in a sample. *)
Definition swap (v : Z) : Z :=
  if v =? 0 then 255 else if v =? 255 then 0 else v.

(** The contribution the Floyd-Steinberg kernel prescribes for residual
    [e] and weight [k/16], truncated toward zero. *)
Definition fsContribution (e k : Z) : Z := (e * k) ÷ 16.

(** ITU-R 601 luma of an 8-bit colour, rounded to the nearest integer. *)
Definition itu601 (r g b : Z) : Z := (299 * r + 587 * g + 114 * b + 500) / 1000.

(** An opaque pixel with the 8-bit components [(r, g, b)]. *)
Definition opaque (c : color.Color) (r g b : Z) : Prop :=
  c = color.OfRGBA r g b 255 \/ c = color.OfNRGBA r g b 255.

(** The rectangle from the origin to [(w, h)]. *)
Definition rect (w h : Z) : image.Rectangle :=
  image.mkRectangle (image.mkPoint 0 0) (image.mkPoint w h).

(** A colour whose fields are 8-bit values, as its Go type has them. *)
Definition validColor (c : color.Color) : Prop :=
  match c with
  | color.OfGray g => 0 <= color.Y g < 256
  | color.OfRGBA r g b a | color.OfNRGBA r g b a =>
      0 <= r < 256 /\ 0 <= g < 256 /\ 0 <= b < 256 /\ 0 <= a < 256
  end.

(** The gray level [GrayModel] gives a colour. *)
Definition luma (c : color.Color) : Z :=
  match color.grayModel c with
  | color.OfGray g => color.Y g
  | _ => 0
  end.

(** The state of the conversion loops when columns before [x] are done
    and, in column [x], the rows before [y]: converted samples there,
    zeros elsewhere. *)
Definition convertedUpTo {I} `{image.Image I} (src : I) (W H x y : Z)
    (g : image.Gray) : Prop :=
  luminance g /\ image.Rect g = rect W H /\
  forall cx cy, 0 <= cx < W -> 0 <= cy < H ->
    image.Pix g !! Z.to_nat (cy * W + cx) =
    Some (if (cx <? x) || ((cx =? x) && (cy <? y))
          then luma (image.At src cx cy) else 0).

(** Buffers used as concrete inputs. *)
Definition buffer (w h : Z) (pix : list Z) : image.Gray :=
  {| image.Pix := pix; image.Stride := w; image.Rect := rect w h |}.

Definition gray2x2 : image.Gray := buffer 2 2 [200; 50; 50; 200].
Definition gray3x3 : image.Gray := buffer 3 3 (replicate 9 200).
Definition gray3x2 : image.Gray := buffer 3 2 (replicate 6 200).

(** A source image given by its bounds and a colour for every point. *)
Record Picture : Type := mkPicture {
  pictureBounds : image.Rectangle;
  pictureAt : Z -> Z -> color.Color
}.

#[export] Instance Picture_Image : image.Image Picture :=
  {| image.Bounds := pictureBounds; image.At := pictureAt |}.

(** A one-pixel source image of colour [c]. *)
Definition onePixel (c : color.Color) : Picture :=
  mkPicture (rect 1 1) (fun _ _ => c).

(** A source image of 2^31 by 2^31 pixels. *)
Definition hugePicture : Picture :=
  mkPicture (rect (2 ^ 31) (2 ^ 31)) (fun _ _ => color.OfRGBA 0 0 0 255).

(** A source image with no columns and three rows. *)
Definition noColumns : Picture :=
  mkPicture (rect 0 3) (fun _ _ => color.OfRGBA 0 0 0 255).

(** A system in which no input file can be opened. *)
Definition noFiles : System Picture :=
  {| Reader := unit; Writer := unit;
     filepath_Ext := fun _ => ""%string;
     os_Open := fun _ => inr "open: no such file or directory"%string;
     os_Create := fun _ => inl tt;
     image_Decode := fun _ => (None, ""%string, Some "image: unknown format"%string);
     gif_Encode := fun _ _ => None;
     jpeg_Encode := fun _ _ => None;
     png_Encode := fun _ _ => None |}.

(** [m] does not panic, yields [a], and stores only at points in [Q]. *)
Definition succeeds {A} (Q : Z * Z -> Prop) (m : M A) (a : A) : Prop :=
  outcome m = Ok a /\ Forall Q (writes m).

(** Every residual the ditherer can form, multiplied by a weight that is
    the [float64] zero, converts to the integer 0. *)
Definition residualsVanish : bool :=
  forallb (fun v =>
    forallb (fun q =>
      int_of_float64
        (PrimFloat.mul (PrimFloat.sub (float64_of_Z v) (float64_of_Z q))
           (float64_of_Z 0)) =? 0)
      [0; 255])
    (seqZ 0 256).

(** Every opaque colour with equal components converts to that
    component. *)
Definition neutralsKeepLevel : bool :=
  forallb (fun v =>
    (luma (color.OfRGBA v v v 255) =? v) &&
    (luma (color.OfNRGBA v v v 255) =? v))
    (seqZ 0 256).

(** A gray source pixel of level [v]: a [color.Gray], or an opaque colour
    whose three components are [v]. *)
Definition neutral (c : color.Color) (v : Z) : Prop :=
  c = color.OfGray (color.mkGray v) \/ opaque c v v v.

(** [os.IsPathSeparator] where the separator is the slash. *)
Definition isPathSeparator (c : Ascii.ascii) : bool := Ascii.eqb c "/"%char.

Definition isDot (c : Ascii.ascii) : bool := Ascii.eqb c "."%char.

(** The loop of [filepath.Ext], which walks the path from its end:
    [before] is [path[:i+1]] reversed, so that its head is [path[i]], and
    [after] is [path[i+1:]]. *)
Fixpoint extScan (before after : list Ascii.ascii) : list Ascii.ascii :=
  match before with
  | [] => []
  | c :: before' =>
      if isPathSeparator c then []
      else if isDot c then c :: after
      else extScan before' (c :: after)
  end.

(** [filepath.Ext(path)]: the suffix from the last dot of the last path
    element, or the empty string. *)
Definition Ext (path : string) : string :=
  string_of_list_ascii (extScan (rev (list_ascii_of_string path)) []).

(** A character that [filepath.Ext] walks over. *)
Definition plainChar (c : Ascii.ascii) : Prop :=
  isPathSeparator c = false /\ isDot c = false.

(** A system in which every file opens and decodes to one red pixel of
    a PNG image, and every write succeeds. *)
Definition oneFile : System Picture :=
  {| Reader := unit; Writer := unit;
     filepath_Ext := Ext;
     os_Open := fun _ => inl tt;
     os_Create := fun _ => inl tt;
     image_Decode := fun _ =>
       (Some (onePixel (color.OfRGBA 255 0 0 255)), "png"%string, None);
     gif_Encode := fun _ _ => None;
     jpeg_Encode := fun _ _ => None;
     png_Encode := fun _ _ => None |}.

(** * Properties *)

(** ** Integers and floats *)

Lemma uint8_int z : uint8 (int z) = z mod 256.
Proof.
  unfold uint8, int.
  pose proof (Z.div_mod (z + 2 ^ 63) (2 ^ 64) ltac:(lia)) as E.
  replace ((z + 2 ^ 63) mod 2 ^ 64 - 2 ^ 63)
    with (z + (- ((z + 2 ^ 63) / 2 ^ 64) * 2 ^ 56) * 256) by lia.
  apply Z_mod_plus_full.
Qed.

Lemma maxAlloc_lt_MaxInt : maxAlloc < MaxInt.
Proof. reflexivity. Qed.

Lemma uint8_small v : 0 <= v < 256 -> uint8 v = v.
Proof. intros. unfold uint8. apply Z.mod_small. lia. Qed.

Lemma weights_are_zero :
  oneSixteenth = 0 /\ threeSixteenths = 0 /\
  fiveSixteenths = 0 /\ sevenSixteenths = 0.
Proof. repeat split; reflexivity. Qed.

Lemma residualsVanish_true : residualsVanish = true.
Proof. vm_compute. reflexivity. Qed.

Lemma contribution_zero v q :
  0 <= v < 256 -> q = 0 \/ q = 255 ->
  int_of_float64
    (PrimFloat.mul (PrimFloat.sub (float64_of_Z v) (float64_of_Z q))
       (float64_of_Z 0)) = 0.
Proof.
  intros Hv Hq.
  pose proof residualsVanish_true as E. unfold residualsVanish in E.
  rewrite forallb_forall in E.
  assert (Hin : In v (seqZ 0 256)).
  { apply list_elem_of_In, elem_of_seqZ. lia. }
  specialize (E v Hin). rewrite forallb_forall in E.
  assert (Hq' : In q [0; 255]) by (destruct Hq; subst; simpl; auto).
  specialize (E q Hq'). lia.
Qed.

(** ** The monad and its loops *)

Section Succeeds.

Context {A B : Type} (Q : Z * Z -> Prop).

Lemma succeeds_ret (a : A) : succeeds Q (ret a) a.
Proof. split; [reflexivity | constructor]. Qed.

Lemma succeeds_tell x y : Q (x, y) -> succeeds Q (tell x y) tt.
Proof. intros HQ. split; [reflexivity | repeat constructor; exact HQ]. Qed.

Lemma succeeds_bind (m : M A) (k : A -> M B) a b :
  succeeds Q m a -> succeeds Q (k a) b -> succeeds Q (bind m k) b.
Proof.
  destruct m as [w r]. intros [Hr Hw] [Hk Hkw]. simpl in Hr, Hw. subst r.
  unfold bind. destruct (k a) as [w' r']. simpl in *. subst r'.
  split; simpl; [reflexivity | apply Forall_app; auto].
Qed.

Lemma succeeds_weaken (Q' : Z * Z -> Prop) (m : M A) a :
  (forall pt, Q' pt -> Q pt) -> succeeds Q' m a -> succeeds Q m a.
Proof.
  intros HQ [Hr Hw]. split; [exact Hr |].
  eapply Forall_impl; [exact Hw | exact HQ].
Qed.

End Succeeds.

(** A loop whose body re-establishes an invariant indexed by the counter
    runs to the bound without a panic and ends in the invariant. *)
Lemma foldM_invariant {A} (Q : Z * Z -> Prop) (Inv : Z -> A -> Prop)
    (body : Z -> A -> M A) (n : nat) :
  forall lo a,
    Inv lo a ->
    (forall i s, lo <= i < lo + Z.of_nat n -> Inv i s ->
       exists s', succeeds Q (body i s) s' /\ Inv (i + 1) s') ->
    exists a', succeeds Q (foldM body (seqZ lo (Z.of_nat n)) a) a' /\
               Inv (lo + Z.of_nat n) a'.
Proof.
  induction n as [|n IH]; intros lo a Ha Hstep.
  - exists a. rewrite seqZ_nil by lia. simpl.
    split; [apply succeeds_ret |]. replace (lo + Z.of_nat 0) with lo by lia.
    exact Ha.
  - rewrite seqZ_cons by lia. simpl.
    destruct (Hstep lo a ltac:(lia) Ha) as (s' & Hs' & Hinv').
    replace (Z.pred (Z.of_nat (S n))) with (Z.of_nat n) by lia.
    destruct (IH (Z.succ lo) s') as (a' & Ha' & Hfin).
    + replace (Z.succ lo) with (lo + 1) by lia. exact Hinv'.
    + intros i s Hi. apply Hstep. lia.
    + exists a'. split.
      * eapply succeeds_bind; eauto.
      * replace (lo + Z.of_nat (S n)) with (Z.succ lo + Z.of_nat n) by lia.
        exact Hfin.
Qed.

Lemma for_lt_invariant {A} (Q : Z * Z -> Prop) (Inv : Z -> A -> Prop)
    (body : Z -> A -> M A) lo hi a :
  lo <= hi ->
  Inv lo a ->
  (forall i s, lo <= i < hi -> Inv i s ->
     exists s', succeeds Q (body i s) s' /\ Inv (i + 1) s') ->
  exists a', succeeds Q (for_lt lo hi body a) a' /\ Inv hi a'.
Proof.
  intros Hle Ha Hstep. unfold for_lt.
  destruct (foldM_invariant Q Inv body (Z.to_nat (hi - lo)) lo a Ha)
    as (a' & Hrun & Hinv).
  - intros i s Hi. apply Hstep. lia.
  - rewrite Z2Nat.id in Hrun, Hinv by lia.
    replace (lo + (hi - lo)) with hi in Hinv by lia. eauto.
Qed.

(** The same, when the state after [i] rounds is a function of [i]. *)
Lemma for_lt_states {A} (Q : Z * Z -> Prop) (st : Z -> A)
    (body : Z -> A -> M A) lo hi :
  lo <= hi ->
  (forall i, lo <= i < hi -> succeeds Q (body i (st i)) (st (i + 1))) ->
  succeeds Q (for_lt lo hi body (st lo)) (st hi).
Proof.
  intros Hle Hstep.
  destruct (for_lt_invariant Q (fun i s => s = st i) body lo hi (st lo))
    as (a' & Hrun & ->); auto.
  intros i s Hi ->. eauto.
Qed.

(** A loop that does not start leaves its state alone. *)
Lemma for_lt_empty {A} (body : Z -> A -> M A) lo hi a :
  hi <= lo -> for_lt lo hi body a = ret a.
Proof. intros. unfold for_lt. rewrite seqZ_nil by lia. reflexivity. Qed.

(** ** Reads and stores on a luminance buffer *)

Lemma withPix_same p : image.withPix p (image.Pix p) = p.
Proof. destruct p; reflexivity. Qed.

Lemma luminance_withPix p pix :
  luminance p ->
  length pix = length (image.Pix p) ->
  Forall (fun v => 0 <= v < 256) pix ->
  luminance (image.withPix p pix).
Proof.
  intros [Hmin Hw Hh Hs Hl Hr] Hlen Hpix.
  split; simpl; auto. rewrite Hlen. exact Hl.
Qed.

Section Buffer.

Variable p : image.Gray.
Hypothesis Hp : luminance p.
Variables x y : Z.
Hypothesis Hx : 0 <= x < width p.
Hypothesis Hy : 0 <= y < height p.

Lemma In_extent : image.In (image.mkPoint x y) (image.Rect p) = true.
Proof.
  unfold image.In, width, height in *. rewrite (lum_min p Hp). simpl.
  repeat (apply andb_true_intro; split); lia.
Qed.

Lemma PixOffset_extent : image.PixOffset p x y = y * width p + x.
Proof.
  unfold image.PixOffset, width.
  rewrite (lum_min p Hp), (lum_stride p Hp). simpl. lia.
Qed.

Lemma offset_bound : 0 <= y * width p + x < Z.of_nat (length (image.Pix p)).
Proof. rewrite (lum_length p Hp). unfold width, height in *. nia. Qed.

Lemma extent_lookup :
  exists v, image.Pix p !! offset p x y = Some v /\ 0 <= v < 256.
Proof.
  pose proof offset_bound as Hb.
  destruct (lookup_lt_is_Some_2 (image.Pix p) (offset p x y)) as [v Hv]; [unfold offset; lia |].
  exists v. split; [exact Hv |].
  pose proof (lum_range p Hp) as Hr. rewrite Forall_lookup in Hr.
  exact (Hr _ v Hv).
Qed.

Lemma GrayAt_extent v :
  image.Pix p !! offset p x y = Some v -> image.GrayAt p x y = ret (color.mkGray v).
Proof.
  intros Hv. unfold image.GrayAt. rewrite In_extent, PixOffset_extent.
  simpl. unfold index. pose proof offset_bound as Hb.
  destruct (Z.ltb_spec (y * width p + x) 0) as [?|_]; [lia |].
  fold (offset p x y). rewrite Hv. reflexivity.
Qed.

Lemma Gray_At_extent Q v :
  image.Pix p !! offset p x y = Some v ->
  succeeds Q (image.Gray_At p x y) (color.OfGray (color.mkGray v)).
Proof.
  intros Hv. unfold image.Gray_At. rewrite (GrayAt_extent v Hv).
  split; [reflexivity | constructor].
Qed.

Lemma SetGray_extent c :
  image.SetGray p x y c =
  ([(x, y)], Ok (image.withPix p (<[offset p x y := color.Y c]> (image.Pix p)))).
Proof.
  unfold image.SetGray. rewrite In_extent, PixOffset_extent. simpl.
  unfold store. pose proof offset_bound as Hb.
  destruct (Z.ltb_spec (y * width p + x) 0) as [?|_]; [lia |].
  destruct (Z.ltb_spec (y * width p + x) (Z.of_nat (length (image.Pix p))))
    as [_|?]; [| lia].
  reflexivity.
Qed.

Lemma Gray_Set_extent c :
  image.Gray_Set p x y c =
  ([(x, y)],
   Ok (image.withPix p
         (<[offset p x y := match color.grayModel c with
                 | color.OfGray g => color.Y g
                 | _ => 0
                 end]> (image.Pix p)))).
Proof.
  unfold image.Gray_Set. rewrite In_extent, PixOffset_extent. simpl.
  unfold store. pose proof offset_bound as Hb.
  destruct (Z.ltb_spec (y * width p + x) 0) as [?|_]; [lia |].
  destruct (Z.ltb_spec (y * width p + x) (Z.of_nat (length (image.Pix p))))
    as [_|?]; [| lia].
  destruct c; reflexivity.
Qed.

(** The store of [addErrorContrib]: the sum, reduced modulo 256. *)
Lemma addErrorContrib_extent errVal perc v :
  image.Pix p !! offset p x y = Some v ->
  addErrorContrib p x y errVal perc =
  ([(x, y)],
   Ok (image.withPix p
         (<[offset p x y := (v + int_of_float64 (PrimFloat.mul errVal perc)) mod 256]>
            (image.Pix p)))).
Proof.
  intros Hv. unfold addErrorContrib, image.Gray_At.
  rewrite (GrayAt_extent v Hv). simpl.
  rewrite SetGray_extent. simpl. rewrite uint8_int. reflexivity.
Qed.

(** With a weight that is zero the store writes back what it read. *)
Lemma addErrorContrib_noop Q v q k :
  Q (x, y) ->
  0 <= v < 256 -> q = 0 \/ q = 255 -> k = 0 ->
  succeeds Q
    (addErrorContrib p x y
       (PrimFloat.sub (float64_of_Z v) (float64_of_Z q)) (float64_of_Z k))
    p.
Proof.
  intros HQ Hv Hq ->.
  destruct extent_lookup as (u & Hu & Hur).
  rewrite (addErrorContrib_extent _ _ u Hu).
  rewrite (contribution_zero v q Hv Hq).
  rewrite Z.add_0_r, Z.mod_small by lia.
  rewrite list_insert_id by exact Hu. rewrite withPix_same.
  split; simpl; [reflexivity | repeat constructor; exact HQ].
Qed.

End Buffer.

(** ** One pixel *)

Lemma quantize_sentinel invert v :
  quantize invert v = low invert \/ quantize invert v = high invert.
Proof. unfold quantize. destruct (v >? threshold); auto. Qed.

Lemma sentinel_values invert :
  (low invert = 0 /\ high invert = 255) \/
  (low invert = 255 /\ high invert = 0).
Proof. destruct invert; [right | left]; split; reflexivity. Qed.

Lemma quantize_level invert v :
  quantize invert v = 0 \/ quantize invert v = 255.
Proof.
  destruct (quantize_sentinel invert v) as [-> | ->];
    destruct (sentinel_values invert) as [[Hl Hh] | [Hl Hh]];
    rewrite ?Hl, ?Hh; auto.
Qed.

Lemma quantize_range invert v : 0 <= quantize invert v < 256.
Proof. destruct (quantize_level invert v) as [-> | ->]; lia. Qed.

(** A neighbour update of the pixel step, on a buffer whose extent is
    that of [p]. *)
Ltac contribution :=
  apply addErrorContrib_noop;
  [ assumption | simpl; lia | simpl; lia
  | simpl; lia | assumption | apply quantize_level | reflexivity ].

Ltac neighbour p1 :=
  eapply succeeds_bind with (a := p1); [contribution |].

Lemma ditherPixel_extent invert p x y v :
  luminance p ->
  0 <= x < width p -> 0 <= y < height p ->
  image.Pix p !! offset p x y = Some v ->
  succeeds (guardedStore (width p) (height p) x y)
    (ditherPixel (low invert) (high invert) (width p - 1) (height p - 1)
       p x y)
    (image.withPix p (<[offset p x y := quantize invert v]> (image.Pix p))).
Proof.
  intros Hp Hx Hy Hv.
  assert (Hvr : 0 <= v < 256).
  { pose proof (lum_range p Hp) as Hr. rewrite Forall_lookup in Hr. eauto. }
  unfold ditherPixel.
  eapply succeeds_bind; [apply Gray_At_extent; eassumption |].
  eapply succeeds_bind; [apply succeeds_ret |]. simpl color.Y.
  change (if v >? threshold then high invert else low invert)
    with (quantize invert v).
  set (p1 := image.withPix p (<[offset p x y := quantize invert v]> _)).
  assert (Hp1 : luminance p1).
  { apply luminance_withPix; [exact Hp | apply length_insert |].
    apply Forall_insert; [exact (lum_range p Hp) | apply quantize_range]. }
  assert (Hw1 : width p1 = width p) by reflexivity.
  assert (Hh1 : height p1 = height p) by reflexivity.
  eapply succeeds_bind with (a := p1).
  { rewrite SetGray_extent by assumption.
    split; simpl; [reflexivity | repeat constructor; simpl; lia]. }
  eapply succeeds_bind with (a := p1).
  { destruct (Z.ltb_spec x (width p - 1)); [| apply succeeds_ret].
    neighbour p1.
    destruct (Z.ltb_spec y (height p - 1)); [| apply succeeds_ret].
    contribution. }
  destruct (Z.ltb_spec y (height p - 1)); [| apply succeeds_ret].
  neighbour p1.
  rewrite Z.gtb_ltb. destruct (Z.ltb_spec 0 x); [| apply succeeds_ret].
  contribution.
Qed.

Lemma guardedStore_inExtent W H x y pt :
  0 <= x < W -> 0 <= y < H -> guardedStore W H x y pt -> inExtent W H pt.
Proof. destruct pt as [a b]. unfold guardedStore, inExtent. simpl. lia. Qed.

(** ** The traversal *)

Section Traversal.

Variable invert : bool.
Variable p : image.Gray.
Hypothesis Hp : luminance p.

Lemma quantizedUpTo_luminance n : luminance (quantizedUpTo invert p n).
Proof.
  apply luminance_withPix; [exact Hp | |].
  - rewrite length_app, length_fmap, <- length_app, take_drop. reflexivity.
  - apply Forall_app. split.
    + apply Forall_fmap, Forall_forall. intros v _. apply quantize_range.
    + apply Forall_drop, (lum_range p Hp).
Qed.

Lemma quantizedUpTo_lookup n v :
  image.Pix p !! n = Some v ->
  image.Pix (quantizedUpTo invert p n) !! n = Some v.
Proof.
  intros Hv. pose proof (lookup_lt_Some _ _ _ Hv) as Hn. simpl.
  rewrite lookup_app_r; rewrite length_fmap, length_take; [| lia].
  rewrite lookup_drop. rewrite <- Hv. f_equal. lia.
Qed.

Lemma quantizedUpTo_step n v :
  image.Pix p !! n = Some v ->
  image.withPix (quantizedUpTo invert p n)
    (<[n := quantize invert v]> (image.Pix (quantizedUpTo invert p n))) =
  quantizedUpTo invert p (S n).
Proof.
  intros Hv. pose proof (lookup_lt_Some _ _ _ Hv) as Hn.
  unfold quantizedUpTo, image.withPix. simpl. f_equal.
  rewrite insert_app_r_alt; rewrite length_fmap, length_take; [| lia].
  replace (n - n `min` length (image.Pix p))%nat with 0%nat by lia.
  rewrite (drop_S _ _ _ Hv). simpl.
  rewrite (take_S_r _ _ _ Hv), fmap_app, <- app_assoc. reflexivity.
Qed.

Lemma quantizedUpTo_0 : quantizedUpTo invert p 0 = p.
Proof. unfold quantizedUpTo. simpl. rewrite drop_0. apply withPix_same. Qed.

Lemma quantizedUpTo_all n :
  (length (image.Pix p) <= n)%nat ->
  quantizedUpTo invert p n = thresholdMap invert p.
Proof.
  intros Hn. unfold quantizedUpTo, thresholdMap.
  rewrite take_ge, drop_ge, app_nil_r by lia. reflexivity.
Qed.

(** The inner loop quantizes row [y]. *)
Lemma row_succeeds y :
  0 <= y < height p ->
  succeeds (inExtent (width p) (height p))
    (for_lt 0 (width p) (fun x img =>
       ditherPixel (low invert) (high invert) (width p - 1) (height p - 1)
         img x y)
       (quantizedUpTo invert p (Z.to_nat (y * width p))))
    (quantizedUpTo invert p (Z.to_nat ((y + 1) * width p))).
Proof.
  intros Hy. pose proof (lum_width p Hp) as Hw. fold (width p) in Hw.
  pose (st := fun x => quantizedUpTo invert p (Z.to_nat (y * width p + x))).
  replace (y * width p) with (y * width p + 0) at 1 by lia.
  replace ((y + 1) * width p) with (y * width p + width p) by lia.
  apply (for_lt_states _ st); [exact Hw |].
  intros x Hx. unfold st.
  set (q := quantizedUpTo invert p (Z.to_nat (y * width p + x))).
  assert (Hq : luminance q) by apply quantizedUpTo_luminance.
  assert (Hoff : offset q x y = Z.to_nat (y * width p + x)) by reflexivity.
  destruct (extent_lookup p Hp x y Hx Hy) as (v & Hv & _).
  unfold offset in Hv.
  assert (Hstep :
    image.Pix q !! offset q x y = Some v ->
    succeeds (inExtent (width p) (height p))
      (ditherPixel (low invert) (high invert) (width p - 1) (height p - 1)
         q x y)
      (image.withPix q
         (<[offset q x y := quantize invert v]> (image.Pix q)))).
  { intros Hlook. eapply succeeds_weaken.
    - intros pt. apply guardedStore_inExtent; [exact Hx | exact Hy].
    - apply (ditherPixel_extent invert q x y v Hq Hx Hy Hlook). }
  rewrite Hoff in Hstep. specialize (Hstep (quantizedUpTo_lookup _ _ Hv)).
  subst q. rewrite (quantizedUpTo_step _ _ Hv) in Hstep.
  replace (Z.to_nat (y * width p + (x + 1)))
    with (S (Z.to_nat (y * width p + x))) by nia.
  exact Hstep.
Qed.

(** The whole pass is the pointwise threshold map, stores only inside
    the extent, and does not panic. *)
Lemma dither_succeeds :
  succeeds (inExtent (width p) (height p))
    (errorDiffusionDither p invert) (thresholdMap invert p).
Proof.
  unfold errorDiffusionDither, image.Gray_Bounds.
  rewrite (surjective_pairing (sentinels invert)).
  fold (low invert) (high invert) (width p) (height p).
  pose proof (lum_height p Hp) as Hh. fold (height p) in Hh.
  pose (st := fun y => quantizedUpTo invert p (Z.to_nat (y * width p))).
  pose proof (for_lt_states (inExtent (width p) (height p)) st
                (fun y img => for_lt 0 (width p) (fun x img =>
                   ditherPixel (low invert) (high invert) (width p - 1)
                     (height p - 1) img x y) img)
                0 (height p) Hh row_succeeds) as Hrun.
  subst st. cbv beta in Hrun. rewrite Z.mul_0_l in Hrun.
  change (Z.to_nat 0) with 0%nat in Hrun.
  rewrite quantizedUpTo_0, quantizedUpTo_all in Hrun; [exact Hrun |].
  pose proof (lum_length p Hp) as Hl. fold (width p) (height p) in Hl. lia.
Qed.

End Traversal.

(** ** Samples of a luminance buffer *)

Lemma sample_extent p x y :
  luminance p -> 0 <= x < width p -> 0 <= y < height p ->
  sample p x y = image.Pix p !! offset p x y.
Proof.
  intros Hp Hx Hy. destruct (extent_lookup p Hp x y Hx Hy) as (v & Hv & _).
  unfold sample. rewrite (GrayAt_extent p Hp x y Hx Hy v Hv), Hv. reflexivity.
Qed.

Lemma thresholdMap_luminance invert p :
  luminance p -> luminance (thresholdMap invert p).
Proof.
  intros Hp. apply luminance_withPix; [exact Hp | apply length_fmap |].
  apply Forall_fmap, Forall_forall. intros v _. apply quantize_range.
Qed.

Lemma thresholdMap_sample invert p x y :
  luminance p -> 0 <= x < width p -> 0 <= y < height p ->
  sample (thresholdMap invert p) x y = quantize invert <$> sample p x y.
Proof.
  intros Hp Hx Hy.
  rewrite (sample_extent p x y Hp Hx Hy).
  rewrite (sample_extent _ x y (thresholdMap_luminance invert p Hp) Hx Hy).
  simpl. apply list_lookup_fmap.
Qed.

Lemma thresholdMap_sentinels invert p :
  Forall (fun v => v = low invert \/ v = high invert)
    (image.Pix (thresholdMap invert p)).
Proof.
  simpl. apply Forall_fmap, Forall_forall. intros v _.
  apply quantize_sentinel.
Qed.

Lemma swap_quantize v : swap (quantize true v) = quantize false v.
Proof. unfold quantize. destruct (v >? threshold); reflexivity. Qed.

Ltac extent_by_computation :=
  cbv [width height buffer rect gray2x2 gray3x3 gray3x2
       image.X image.Y image.Max image.Rect]; lia.

Ltac luminance_by_computation :=
  split; simpl; [reflexivity | lia | lia | reflexivity | reflexivity
                | repeat constructor; lia ].

(** ** Conversion to gray *)

Lemma grayModel_idempotent c :
  color.grayModel (color.grayModel c) = color.grayModel c.
Proof. destruct c; reflexivity. Qed.

Lemma luma_range c : validColor c -> 0 <= luma c < 256.
Proof.
  unfold luma. destruct c; simpl; intros Hc; [exact Hc | |];
    apply Z.mod_pos_bound; lia.
Qed.

Lemma offset_injective W cx cy x y :
  0 <= cx < W -> 0 <= x < W -> 0 <= cy -> 0 <= y ->
  Z.to_nat (cy * W + cx) = Z.to_nat (y * W + x) -> cx = x /\ cy = y.
Proof.
  intros Hcx Hx Hcy Hy E.
  assert (E' : cy * W + cx = y * W + x) by nia.
  assert (cy = y) by nia. subst. lia.
Qed.

Section Conversion.

Context {I : Type} {Img : image.Image I}.
Variable src : I.
Variables W H : Z.
Hypothesis Hbounds : image.Bounds src = rect W H.
Hypothesis HW : 0 <= W.
Hypothesis HH : 0 <= H.
Hypothesis Hvalid : forall x y, validColor (image.At src x y).

Lemma NewGray_rect :
  W * H <= maxAlloc ->
  image.NewGray (rect W H) =
  ret {| image.Pix := replicate (Z.to_nat (W * H)) 0;
         image.Stride := W; image.Rect := rect W H |}.
Proof.
  intros Hfit. pose proof maxAlloc_lt_MaxInt as Hlim.
  assert (Hn : 0 <= W * H) by nia.
  unfold image.NewGray, image.pixelBufferLength, make_uint8,
    image.Dx, image.Dy. simpl.
  rewrite !Z.sub_0_r.
  destruct (Z.ltb_spec W 0); [lia |].
  destruct (Z.ltb_spec H 0); [lia |].
  destruct (Z.ltb_spec MaxInt (W * H)); [lia |]. simpl.
  destruct (Z.ltb_spec (W * H) 0); [lia |].
  destruct (Z.ltb_spec maxAlloc (W * H)); [lia |]. reflexivity.
Qed.

Lemma convertedUpTo_start :
  convertedUpTo src W H 0 0
    {| image.Pix := replicate (Z.to_nat (W * H)) 0;
       image.Stride := W; image.Rect := rect W H |}.
Proof.
  split; [| split; [reflexivity |]].
  - split; simpl; try lia; try reflexivity.
    + rewrite length_replicate. lia.
    + apply Forall_replicate. lia.
  - intros cx cy Hcx Hcy. simpl.
    destruct (Z.ltb_spec cx 0); [lia |].
    destruct (Z.eqb_spec cx 0); simpl.
    + destruct (Z.ltb_spec cy 0); [lia |].
      apply lookup_replicate_2. nia.
    + apply lookup_replicate_2. nia.
Qed.

(** One store of the inner loop. *)
Lemma convertedUpTo_store x y g :
  0 <= x < W -> 0 <= y < H ->
  convertedUpTo src W H x y g ->
  exists g',
    succeeds (inExtent W H)
      (image.Gray_Set g x y (color.grayModel (image.At src x y))) g' /\
    convertedUpTo src W H x (y + 1) g'.
Proof.
  intros Hx Hy (Hg & Hrect & Hpix).
  assert (Hw : width g = W) by (unfold width; rewrite Hrect; reflexivity).
  assert (Hh : height g = H) by (unfold height; rewrite Hrect; reflexivity).
  rewrite <- Hw in Hx. rewrite <- Hh in Hy.
  rewrite (Gray_Set_extent g Hg x y Hx Hy), grayModel_idempotent.
  fold (luma (image.At src x y)). unfold offset. rewrite Hw in *.
  rewrite Hh in *.
  eexists. split; [split; simpl; [reflexivity |] |].
  { repeat constructor; simpl; lia. }
  split; [| split; [exact Hrect |]].
  - apply luminance_withPix; [exact Hg | apply length_insert |].
    apply Forall_insert; [exact (lum_range g Hg) | apply luma_range, Hvalid].
  - intros cx cy Hcx Hcy. simpl.
    destruct (decide (Z.to_nat (cy * W + cx) = Z.to_nat (y * W + x)))
      as [E | NE].
    + destruct (offset_injective W cx cy x y) as [-> ->]; try lia.
      rewrite list_lookup_insert_eq.
      * rewrite Z.eqb_refl. simpl.
        destruct (Z.ltb_spec y (y + 1)); [| lia].
        rewrite orb_true_r. reflexivity.
      * pose proof (lum_length g Hg) as Hl. fold (width g) (height g) in Hl.
        rewrite Hw, Hh in Hl. nia.
    + rewrite list_lookup_insert_ne by congruence.
      rewrite (Hpix cx cy Hcx Hcy). do 2 f_equal. f_equal.
      destruct (Z.eqb_spec cx x); [| reflexivity]. subst cx. simpl.
      assert (cy <> y) by congruence.
      destruct (Z.ltb_spec cy y), (Z.ltb_spec cy (y + 1)); (reflexivity || lia).
Qed.

(** The inner loop converts column [x]. *)
Lemma convertedUpTo_column x g :
  0 <= x < W ->
  convertedUpTo src W H x 0 g ->
  exists g',
    succeeds (inExtent W H)
      (for_lt 0 H (fun y result =>
         image.Gray_Set result x y (color.grayModel (image.At src x y))) g)
      g' /\
    convertedUpTo src W H (x + 1) 0 g'.
Proof.
  intros Hx Hg.
  destruct (for_lt_invariant (inExtent W H)
              (fun y g => convertedUpTo src W H x y g)
              (fun y result =>
                 image.Gray_Set result x y
                   (color.grayModel (image.At src x y)))
              0 H g HH Hg) as (g' & Hrun & Hlum & Hrect & Hpix).
  - intros y s Hy Hs. apply convertedUpTo_store; assumption.
  - exists g'. split; [exact Hrun |]. split; [exact Hlum |].
    split; [exact Hrect |].
    intros cx cy Hcx Hcy. rewrite (Hpix cx cy Hcx Hcy). do 2 f_equal.
    destruct (Z.ltb_spec cy H); [| lia].
    destruct (Z.ltb_spec cy 0); [lia |]. rewrite !andb_false_r, andb_true_r.
    destruct (Z.ltb_spec cx x), (Z.eqb_spec cx x), (Z.ltb_spec cx (x + 1));
      simpl; (reflexivity || lia).
Qed.

(** The conversion does not panic, stores only inside the extent, and
    yields the luminance buffer of that extent whose samples are the
    gray levels of the source pixels. *)
Lemma imageToGrayscale_succeeds :
  W * H <= maxAlloc ->
  exists g,
    succeeds (inExtent W H) (imageToGrayscale (Some src)) g /\
    luminance g /\ image.Rect g = rect W H /\
    forall x y, 0 <= x < W -> 0 <= y < H ->
      sample g x y = Some (luma (image.At src x y)).
Proof.
  intros Hfit. unfold imageToGrayscale.
  destruct (for_lt_invariant (inExtent W H)
              (fun x g => convertedUpTo src W H x 0 g)
              (fun x result =>
                 for_lt 0 H (fun y result =>
                   image.Gray_Set result x y
                     (color.grayModel (image.At src x y))) result)
              0 W _ HW convertedUpTo_start)
    as (g & Hrun & Hlum & Hrect & Hpix).
  - intros x s Hx Hs. apply convertedUpTo_column; assumption.
  - exists g. split.
    + eapply succeeds_bind; [apply succeeds_ret |]. simpl.
      rewrite Hbounds. eapply succeeds_bind.
      * rewrite (NewGray_rect Hfit). apply succeeds_ret.
      * simpl. exact Hrun.
    + split; [exact Hlum |]. split; [exact Hrect |].
      intros x y Hx Hy.
      assert (Hw : width g = W) by (unfold width; rewrite Hrect; reflexivity).
      assert (Hh : height g = H)
        by (unfold height; rewrite Hrect; reflexivity).
      rewrite sample_extent by (rewrite ?Hw, ?Hh; assumption).
      unfold offset. rewrite Hw, (Hpix x y Hx Hy).
      destruct (Z.ltb_spec x W); [reflexivity | lia].
Qed.

End Conversion.

(** ** The command *)

Lemma loadImage_failure {I} (sys : System I) file img fmt err :
  (forall r img fmt e, image_Decode sys r = (img, fmt, Some e) -> img = None) ->
  loadImage sys file = (img, fmt, Some err) -> img = None.
Proof.
  intros Hdec. unfold loadImage. destruct (os_Open sys file) as [r | e].
  - apply Hdec.
  - intros E. inversion E. reflexivity.
Qed.

Lemma imageToGrayscale_nil {I} {Img : image.Image I} :
  imageToGrayscale (None : option I) =
  panic "invalid memory address or nil pointer dereference".
Proof. reflexivity. Qed.

(** * The claims *)

(** C1 (the code departs from it): the kernel prescribes the
    contributions [int(e*7/16)], [int(e*3/16)], [int(e*5/16)] and
    [int(e*1/16)].  On the 3x2 buffer of uniform value 200 the step for
    pixel (1,0) has residual -55, for which these are -24, -10, -17 and
    -3; the program leaves all four neighbours at 200, because each of
    its weight constants is the integer quotient 0. *)
Theorem C1_neighbours_receive_nothing :
  sevenSixteenths = 0 /\ threeSixteenths = 0 /\
  fiveSixteenths = 0 /\ oneSixteenth = 0 /\
  outcome (ditherPixel 0 255 2 1 gray3x2 1 0) =
    Ok (buffer 3 2 [200; 255; 200; 200; 200; 200]) /\
  fsContribution (200 - 255) 7 = -24 /\
  fsContribution (200 - 255) 3 = -10 /\
  fsContribution (200 - 255) 5 = -17 /\
  fsContribution (200 - 255) 1 = -3.
Proof. vm_compute. repeat split; reflexivity. Qed.

(** C2 (the code departs from it): on the buffer [[200,50],[50,200]]
    without inversion the step for pixel (0,0) writes 255 there, the
    residual is -55 and the kernel's share for (1,0) is -24, which would
    make that sample 26; the program leaves it at 50.  Called with the
    weight 7/16 as a [float64], [addErrorContrib] does store 26: the
    departure lies in the constant, which is 0. *)
Theorem C2_scenario_first_pixel :
  outcome (ditherPixel (low false) (high false) 1 1 gray2x2 0 0) =
    Ok (buffer 2 2 [255; 50; 50; 200]) /\
  200 - 255 = -55 /\
  50 + fsContribution (-55) 7 = 26 /\
  outcome (addErrorContrib (buffer 2 2 [255; 50; 50; 200]) 1 0
             (float64_of_Z (-55))
             (PrimFloat.div (float64_of_Z 7) (float64_of_Z 16))) =
    Ok (buffer 2 2 [255; 26; 50; 200]) /\
  outcome (addErrorContrib (buffer 2 2 [255; 50; 50; 200]) 1 0
             (float64_of_Z (-55)) (float64_of_Z sevenSixteenths)) =
    Ok (buffer 2 2 [255; 50; 50; 200]) /\
  outcome (errorDiffusionDither gray2x2 false) =
    Ok (buffer 2 2 [255; 0; 0; 255]).
Proof. vm_compute. repeat split; reflexivity. Qed.



(** C4: for every luminance buffer, of any extent [W >= 0] by [H >= 0],
    and both values of the invert flag, the pass completes and every
    sample of the result is [low] or [high], two distinct values that are
    (0,255) without inversion and (255,0) with it. *)
Theorem C4_every_sample_is_a_sentinel p invert :
  luminance p ->
  exists g,
    outcome (errorDiffusionDither p invert) = Ok g /\
    Forall (fun v => v = low invert \/ v = high invert) (image.Pix g) /\
    length (image.Pix g) = length (image.Pix p) /\
    low invert <> high invert /\
    (low invert, high invert) = (if invert then (255, 0) else (0, 255)).
Proof.
  intros Hp. exists (thresholdMap invert p).
  split; [apply (dither_succeeds invert p Hp) |].
  split; [apply thresholdMap_sentinels |].
  split; [apply length_fmap |].
  destruct invert; split; (discriminate || reflexivity).
Qed.

Lemma C4_every_sample_is_a_sentinel_witness :
  luminance gray3x3 /\
  exists g,
    outcome (errorDiffusionDither gray3x3 true) = Ok g /\
    Forall (fun v => v = low true \/ v = high true) (image.Pix g) /\
    length (image.Pix g) = length (image.Pix gray3x3) /\
    low true <> high true /\
    (low true, high true) = (255, 0).
Proof.
  assert (Hl : luminance gray3x3) by luminance_by_computation.
  split; [exact Hl |].
  exact (C4_every_sample_is_a_sentinel gray3x3 true Hl).
Defined.

(** C5: for every luminance buffer, dithering with inversion and then
    swapping 0 and 255 in every sample gives exactly the buffer that
    dithering without inversion gives. *)
Theorem C5_invert_then_swap p :
  luminance p ->
  exists gi gn,
    outcome (errorDiffusionDither p true) = Ok gi /\
    outcome (errorDiffusionDither p false) = Ok gn /\
    image.withPix gi (swap <$> image.Pix gi) = gn.
Proof.
  intros Hp. exists (thresholdMap true p), (thresholdMap false p).
  split; [apply (dither_succeeds true p Hp) |].
  split; [apply (dither_succeeds false p Hp) |].
  unfold thresholdMap, image.withPix. simpl. f_equal.
  rewrite <- list_fmap_compose. apply list_fmap_ext.
  intros i v _. apply swap_quantize.
Qed.

Lemma C5_invert_then_swap_witness :
  luminance gray2x2 /\
  exists gi gn,
    outcome (errorDiffusionDither gray2x2 true) = Ok gi /\
    outcome (errorDiffusionDither gray2x2 false) = Ok gn /\
    image.withPix gi (swap <$> image.Pix gi) = gn.
Proof.
  assert (Hl : luminance gray2x2) by luminance_by_computation.
  split; [exact Hl |].
  exact (C5_invert_then_swap gray2x2 Hl).
Defined.

(** C6: when loading the input image fails, the run prints the error on
    standard error and ends with a non-zero exit status, and the output
    stage is never entered.  The run does not stop at the error: it goes
    on to [imageToGrayscale] with the nil image, whose first method call
    panics, and the Go runtime ends the process with status 2. *)
Theorem C6_decode_failure_ends_the_run {I} {Img : image.Image I}
    (sys : System I) (f : flags) (cfg : config) (err : string) :
  (forall r img fmt e, image_Decode sys r = (img, fmt, Some e) -> img = None) ->
  buildConfigFromArgs sys f = (Some cfg, None) ->
  snd (loadImage sys (inFile cfg)) = Some err ->
  fst (main sys f) = [FprintlnStderr err] /\
  snd (main sys f) =
    Panicked "invalid memory address or nil pointer dereference" /\
  exitStatus (snd (main sys f)) <> 0 /\
  forallb (fun e => negb (isSaveImage e)) (fst (main sys f)) = true.
Proof.
  intros Hdec Hcfg Herr. unfold main. rewrite Hcfg.
  destruct (loadImage sys (inFile cfg)) as [[img fmt] oe] eqn:Hload.
  simpl in Herr. subst oe.
  rewrite (loadImage_failure sys _ img fmt err Hdec Hload).
  rewrite imageToGrayscale_nil. simpl.
  repeat split. discriminate.
Qed.

Lemma C6_decode_failure_ends_the_run_witness :
  fst (main noFiles (mkFlags "out" false ["in.png"%string])) =
    [FprintlnStderr "open: no such file or directory"] /\
  exitStatus (snd (main noFiles (mkFlags "out" false ["in.png"%string]))) = 2.
Proof.
  destruct (C6_decode_failure_ends_the_run noFiles
              (mkFlags "out" false ["in.png"%string])
              (mkConfig "in.png" "out" false)
              "open: no such file or directory")
    as (Hout & Hend & _).
  - intros r img fmt e E. simpl in E. inversion E. reflexivity.
  - reflexivity.
  - reflexivity.
  - split; [exact Hout |]. rewrite Hend. reflexivity.
Defined.

(** C7: on every luminance buffer with [W >= 1] and [H >= 1] every store
    of the pass goes to a point of [[0,W) x [0,H)]; the step for a pixel
    stores to the pixel itself and to a neighbour only under that
    neighbour's guard ([x+1 < W], [y+1 < H], [x-1 >= 0]); and the pass
    completes with nothing but the two sentinels in the buffer. *)
Theorem C7_stores_stay_inside p invert :
  luminance p -> 1 <= width p -> 1 <= height p ->
  Forall (inExtent (width p) (height p))
    (writes (errorDiffusionDither p invert)) /\
  (forall q x y,
     luminance q -> width q = width p -> height q = height p ->
     0 <= x < width p -> 0 <= y < height p ->
     Forall (guardedStore (width p) (height p) x y)
       (writes (ditherPixel (low invert) (high invert)
                  (width p - 1) (height p - 1) q x y))) /\
  exists g,
    outcome (errorDiffusionDither p invert) = Ok g /\
    Forall (fun v => v = low invert \/ v = high invert) (image.Pix g).
Proof.
  intros Hp _ _. split; [apply (dither_succeeds invert p Hp) |]. split.
  - intros q x y Hq Hw Hh Hx Hy. rewrite <- Hw, <- Hh in *.
    destruct (extent_lookup q Hq x y Hx Hy) as (v & Hv & _).
    apply (ditherPixel_extent invert q x y v Hq Hx Hy Hv).
  - exists (thresholdMap invert p).
    split; [apply (dither_succeeds invert p Hp) | apply thresholdMap_sentinels].
Qed.

Lemma C7_stores_stay_inside_witness :
  luminance gray3x3 /\ 1 <= width gray3x3 /\ 1 <= height gray3x3 /\
  Forall (inExtent 3 3) (writes (errorDiffusionDither gray3x3 false)) /\
  exists g,
    outcome (errorDiffusionDither gray3x3 false) = Ok g /\
    Forall (fun v => v = 0 \/ v = 255) (image.Pix g).
Proof.
  assert (Hl : luminance gray3x3) by luminance_by_computation.
  assert (Hw : 1 <= width gray3x3) by extent_by_computation.
  assert (Hh : 1 <= height gray3x3) by extent_by_computation.
  destruct (C7_stores_stay_inside gray3x3 false Hl Hw Hh) as (Hst & _ & Hg).
  split; [exact Hl |]. split; [exact Hw |]. split; [exact Hh |].
  split; [exact Hst | exact Hg].
Defined.

(** C8: for a source pixel that is pure red, pure green or pure blue the
    conversion yields a sample within 1 of the ITU-R 601 sum
    [0.299 R + 0.587 G + 0.114 B] rounded to the nearest integer.  The
    source is only read, through [Bounds] and [At]; every store of the
    conversion goes to the buffer it allocates. *)
Theorem C8_pure_colours_match_itu601 {I} {Img : image.Image I}
    (src : I) (W H x y r g b : Z) :
  image.Bounds src = rect W H -> 0 <= W -> 0 <= H -> W * H <= maxAlloc ->
  (forall x y, validColor (image.At src x y)) ->
  0 <= x < W -> 0 <= y < H ->
  opaque (image.At src x y) r g b ->
  (r, g, b) = (255, 0, 0) \/ (r, g, b) = (0, 255, 0) \/
  (r, g, b) = (0, 0, 255) ->
  exists out v,
    outcome (imageToGrayscale (Some src)) = Ok out /\
    image.Rect out = image.Bounds src /\
    sample out x y = Some v /\
    -1 <= v - itu601 r g b <= 1.
Proof.
  intros Hb HW HH Hfit Hvalid Hx Hy Hc Hrgb.
  destruct (imageToGrayscale_succeeds src W H Hb HW HH Hvalid Hfit)
    as (out & [Hrun _] & _ & Hrect & Hpix).
  exists out, (luma (image.At src x y)).
  split; [exact Hrun |]. split; [congruence |].
  split; [apply Hpix; assumption |].
  destruct Hc as [-> | ->];
    destruct Hrgb as [E | [E | E]]; inversion E; subst;
    vm_compute; split; discriminate.
Qed.

Lemma C8_pure_colours_match_itu601_witness :
  exists out v,
    outcome (imageToGrayscale (Some (onePixel (color.OfRGBA 255 0 0 255))))
      = Ok out /\
    image.Rect out = image.Bounds (onePixel (color.OfRGBA 255 0 0 255)) /\
    sample out 0 0 = Some v /\
    -1 <= v - itu601 255 0 0 <= 1.
Proof.
  apply (C8_pure_colours_match_itu601
           (onePixel (color.OfRGBA 255 0 0 255)) 1 1 0 0 255 0 0);
    try lia.
  - reflexivity.
  - vm_compute. discriminate.
  - intros x y. simpl. lia.
  - left. reflexivity.
  - left. reflexivity.
Defined.

(** C9, as stated, fails: the conversion is not total on all extents
    [W >= 0] by [H >= 0].  For a source of 2^31 by 2^31 pixels
    [image.NewGray] asks for 2^62 samples and the allocation panics. *)
Lemma C9_conversion_panics_on_huge_extent :
  ~ (forall (src : Picture) (W H : Z),
       image.Bounds src = rect W H -> 0 <= W -> 0 <= H ->
       (forall x y, validColor (image.At src x y)) ->
       exists g, outcome (imageToGrayscale (Some src)) = Ok g).
Proof.
  intros Hclaim.
  destruct (Hclaim hugePicture (2 ^ 31) (2 ^ 31)) as [g Hg].
  - reflexivity.
  - lia.
  - lia.
  - intros x y. simpl. lia.
  - vm_compute in Hg. discriminate.
Qed.

(** C9 (amended): both operations are total on the extents [W >= 0] by
    [H >= 0] whose number of samples [W * H] the runtime lets
    [image.NewGray] allocate.  The conversion then returns, without a
    panic, a luminance buffer of the source's extent, which is empty
    when [W] or [H] is 0; the pass on any luminance buffer completes
    without a panic, keeps the extent, and leaves an empty buffer as it
    was. *)
Theorem C9_operations_are_total {I} {Img : image.Image I}
    (src : I) (W H : Z) (p : image.Gray) (invert : bool) :
  image.Bounds src = rect W H -> 0 <= W -> 0 <= H -> W * H <= maxAlloc ->
  (forall x y, validColor (image.At src x y)) ->
  luminance p ->
  (exists g,
     outcome (imageToGrayscale (Some src)) = Ok g /\
     luminance g /\
     image.Rect g = image.Bounds src /\
     Z.of_nat (length (image.Pix g)) = W * H /\
     (W = 0 \/ H = 0 -> image.Pix g = [])) /\
  (exists g,
     outcome (errorDiffusionDither p invert) = Ok g /\
     luminance g /\
     image.Rect g = image.Rect p /\
     length (image.Pix g) = length (image.Pix p) /\
     (width p = 0 \/ height p = 0 -> g = p)).
Proof.
  intros Hb HW HH Hfit Hvalid Hp. split.
  - destruct (imageToGrayscale_succeeds src W H Hb HW HH Hvalid Hfit)
      as (g & [Hrun _] & Hlum & Hrect & _).
    assert (Hlen : Z.of_nat (length (image.Pix g)) = W * H).
    { rewrite (lum_length g Hlum), Hrect. reflexivity. }
    exists g. split; [exact Hrun |]. split; [exact Hlum |].
    split; [congruence |]. split; [exact Hlen |].
    intros Hz. apply nil_length_inv. nia.
  - exists (thresholdMap invert p).
    split; [apply (dither_succeeds invert p Hp) |].
    split; [apply thresholdMap_luminance, Hp |].
    split; [reflexivity |]. split; [apply length_fmap |].
    intros Hz. pose proof (lum_length p Hp) as Hl.
    fold (width p) (height p) in Hl.
    assert (E : image.Pix p = []) by (apply nil_length_inv; nia).
    unfold thresholdMap. rewrite E. simpl. rewrite <- E. apply withPix_same.
Qed.

Lemma C9_operations_are_total_witness :
  (exists g,
     outcome (imageToGrayscale (Some noColumns)) = Ok g /\
     luminance g /\
     image.Rect g = image.Bounds noColumns /\
     Z.of_nat (length (image.Pix g)) = 0 * 3 /\
     (0 = 0 \/ 3 = 0 -> image.Pix g = [])) /\
  (exists g,
     outcome (errorDiffusionDither (buffer 0 3 []) true) = Ok g /\
     luminance g /\
     image.Rect g = image.Rect (buffer 0 3 []) /\
     length (image.Pix g) = length (image.Pix (buffer 0 3 [])) /\
     (width (buffer 0 3 []) = 0 \/ height (buffer 0 3 []) = 0 ->
      g = buffer 0 3 [])).
Proof.
  apply (C9_operations_are_total noColumns 0 3 (buffer 0 3 []) true);
    try lia.
  - reflexivity.
  - vm_compute. discriminate.
  - intros x y. simpl. lia.
  - luminance_by_computation.
Defined.

(** C10: for every luminance buffer the pass completes and leaves at
    each pixel [high] exactly when that pixel's own initial sample
    exceeds 127 and [low] otherwise, whatever the other samples are: the
    pass equals the pointwise threshold map. *)
Theorem C10_pass_is_pointwise_threshold p invert :
  luminance p ->
  exists g,
    outcome (errorDiffusionDither p invert) = Ok g /\
    g = thresholdMap invert p /\
    forall x y, 0 <= x < width p -> 0 <= y < height p ->
      exists v, sample p x y = Some v /\
                sample g x y =
                  Some (if v >? 127 then high invert else low invert).
Proof.
  intros Hp. exists (thresholdMap invert p).
  split; [apply (dither_succeeds invert p Hp) |]. split; [reflexivity |].
  intros x y Hx Hy. destruct (extent_lookup p Hp x y Hx Hy) as (v & Hv & _).
  exists v. rewrite (thresholdMap_sample invert p x y Hp Hx Hy).
  rewrite (sample_extent p x y Hp Hx Hy), Hv. split; reflexivity.
Qed.

Lemma C10_pass_is_pointwise_threshold_witness :
  luminance gray2x2 /\
  exists g,
    outcome (errorDiffusionDither gray2x2 false) = Ok g /\
    g = thresholdMap false gray2x2 /\
    forall x y, 0 <= x < width gray2x2 -> 0 <= y < height gray2x2 ->
      exists v, sample gray2x2 x y = Some v /\
                sample g x y =
                  Some (if v >? 127 then high false else low false).
Proof.
  assert (Hl : luminance gray2x2) by luminance_by_computation.
  split; [exact Hl |].
  exact (C10_pass_is_pointwise_threshold gray2x2 false Hl).
Defined.

(** * Further properties of the program *)

(** ** The pass *)

Lemma outcome_bind {A B} (m : M A) (k : A -> M B) a :
  outcome m = Ok a -> outcome (bind m k) = outcome (k a).
Proof.
  destruct m as [w r]. simpl. intros ->. unfold bind.
  destruct (k a). reflexivity.
Qed.

Lemma quantize_twice invert v :
  quantize invert (quantize invert v) = quantize false v.
Proof.
  unfold quantize. destruct invert, (v >? threshold); reflexivity.
Qed.

Lemma quantize_monotone v w :
  v <= w -> quantize false v <= quantize false w.
Proof.
  intros Hvw. unfold quantize. rewrite !Z.gtb_ltb.
  destruct (Z.ltb_spec threshold v), (Z.ltb_spec threshold w);
    cbv [high low sentinels MaxUint8 fst snd]; lia.
Qed.

Lemma quantize_antitone v w :
  v <= w -> quantize true w <= quantize true v.
Proof.
  intros Hvw. unfold quantize. rewrite !Z.gtb_ltb.
  destruct (Z.ltb_spec threshold v), (Z.ltb_spec threshold w);
    cbv [high low sentinels MaxUint8 fst snd]; lia.
Qed.

(** X1: one step of the pass changes one sample.  On a luminance buffer
    the step for an in-extent pixel completes, replaces that pixel's
    sample by its quantized value, and leaves every other sample of the
    buffer as it was. *)
Theorem step_changes_only_its_pixel invert p x y :
  luminance p -> 0 <= x < width p -> 0 <= y < height p ->
  exists p',
    outcome (ditherPixel (low invert) (high invert)
               (width p - 1) (height p - 1) p x y) = Ok p' /\
    sample p' x y = quantize invert <$> sample p x y /\
    forall x' y', 0 <= x' < width p -> 0 <= y' < height p ->
      (x', y') <> (x, y) -> sample p' x' y' = sample p x' y'.
Proof.
  intros Hp Hx Hy. destruct (extent_lookup p Hp x y Hx Hy) as (v & Hv & _).
  destruct (ditherPixel_extent invert p x y v Hp Hx Hy Hv) as [Hrun _].
  set (p' := image.withPix p _) in Hrun.
  assert (Hp' : luminance p').
  { apply luminance_withPix; [exact Hp | apply length_insert |].
    apply Forall_insert; [exact (lum_range p Hp) | apply quantize_range]. }
  exists p'. split; [exact Hrun |]. split.
  - rewrite (sample_extent p' x y Hp' Hx Hy), (sample_extent p x y Hp Hx Hy).
    rewrite Hv. simpl. apply list_lookup_insert_eq.
    eapply lookup_lt_Some, Hv.
  - intros x' y' Hx' Hy' Hne.
    rewrite (sample_extent p' x' y' Hp' Hx' Hy').
    rewrite (sample_extent p x' y' Hp Hx' Hy'). simpl.
    apply list_lookup_insert_ne. unfold offset. intros E.
    destruct (offset_injective (width p) x y x' y' ltac:(lia) ltac:(lia)
                ltac:(lia) ltac:(lia) E) as [-> ->].
    congruence.
Qed.

Lemma step_changes_only_its_pixel_witness :
  exists p',
    outcome (ditherPixel (low false) (high false)
               (width gray2x2 - 1) (height gray2x2 - 1) gray2x2 0 0)
      = Ok p' /\
    sample p' 0 0 = quantize false <$> sample gray2x2 0 0 /\
    forall x' y', 0 <= x' < width gray2x2 -> 0 <= y' < height gray2x2 ->
      (x', y') <> (0, 0) -> sample p' x' y' = sample gray2x2 x' y'.
Proof.
  apply (step_changes_only_its_pixel false gray2x2 0 0);
    [luminance_by_computation | extent_by_computation
    | extent_by_computation].
Defined.

(** X2: [addErrorContrib] at a point outside the image rectangle is
    harmless: whatever the residual and the weight, it does not panic
    and returns the buffer unchanged. *)
Theorem addErrorContrib_outside_is_noop p x y errVal perc :
  image.In (image.mkPoint x y) (image.Rect p) = false ->
  addErrorContrib p x y errVal perc = ([(x, y)], Ok p).
Proof.
  intros Hout. unfold addErrorContrib, image.Gray_At, image.GrayAt,
    image.SetGray. rewrite Hout. reflexivity.
Qed.

Lemma addErrorContrib_outside_is_noop_witness :
  addErrorContrib gray2x2 2 0 (float64_of_Z 100)
    (PrimFloat.div (float64_of_Z 1) (float64_of_Z 2)) =
  ([(2, 0)], Ok gray2x2).
Proof.
  apply (addErrorContrib_outside_is_noop gray2x2 2 0). reflexivity.
Defined.

(** X3: running the pass twice with the same flag gives what one pass
    without inversion gives: the plain pass is idempotent, and the
    inverting pass undoes its own inversion. *)
Theorem pass_twice_is_plain_pass p invert :
  luminance p ->
  exists g1 g2,
    outcome (errorDiffusionDither p invert) = Ok g1 /\
    outcome (errorDiffusionDither g1 invert) = Ok g2 /\
    outcome (errorDiffusionDither p false) = Ok g2.
Proof.
  intros Hp.
  exists (thresholdMap invert p), (thresholdMap false p).
  split; [apply (dither_succeeds invert p Hp) |].
  split; [| apply (dither_succeeds false p Hp)].
  destruct (dither_succeeds invert (thresholdMap invert p)
              (thresholdMap_luminance invert p Hp)) as [-> _].
  f_equal. unfold thresholdMap, image.withPix. simpl. f_equal.
  rewrite <- list_fmap_compose. apply list_fmap_ext.
  intros i v _. apply quantize_twice.
Qed.

Lemma pass_twice_is_plain_pass_witness :
  exists g1 g2,
    outcome (errorDiffusionDither gray2x2 true) = Ok g1 /\
    outcome (errorDiffusionDither g1 true) = Ok g2 /\
    outcome (errorDiffusionDither gray2x2 false) = Ok g2.
Proof.
  apply (pass_twice_is_plain_pass gray2x2 true). luminance_by_computation.
Defined.

(** X4: the pass is monotone.  If one luminance buffer is, sample by
    sample, no brighter than another of the same shape, then its output
    is no brighter without inversion, and no darker with it. *)
Theorem pass_is_monotone p q :
  luminance p -> luminance q ->
  Forall2 Z.le (image.Pix p) (image.Pix q) ->
  exists gp gq ip iq,
    outcome (errorDiffusionDither p false) = Ok gp /\
    outcome (errorDiffusionDither q false) = Ok gq /\
    outcome (errorDiffusionDither p true) = Ok ip /\
    outcome (errorDiffusionDither q true) = Ok iq /\
    Forall2 Z.le (image.Pix gp) (image.Pix gq) /\
    Forall2 Z.le (image.Pix iq) (image.Pix ip).
Proof.
  intros Hp Hq Hle.
  exists (thresholdMap false p), (thresholdMap false q),
         (thresholdMap true p), (thresholdMap true q).
  split; [apply (dither_succeeds false p Hp) |].
  split; [apply (dither_succeeds false q Hq) |].
  split; [apply (dither_succeeds true p Hp) |].
  split; [apply (dither_succeeds true q Hq) |].
  simpl. split.
  - apply Forall2_fmap. eapply Forall2_impl; [exact Hle |].
    intros v w. apply quantize_monotone.
  - apply Forall2_fmap, Forall2_flip. eapply Forall2_impl; [exact Hle |].
    intros v w. apply quantize_antitone.
Qed.

Lemma pass_is_monotone_witness :
  exists gp gq ip iq,
    outcome (errorDiffusionDither (buffer 2 1 [100; 130]) false) = Ok gp /\
    outcome (errorDiffusionDither (buffer 2 1 [128; 130]) false) = Ok gq /\
    outcome (errorDiffusionDither (buffer 2 1 [100; 130]) true) = Ok ip /\
    outcome (errorDiffusionDither (buffer 2 1 [128; 130]) true) = Ok iq /\
    Forall2 Z.le (image.Pix gp) (image.Pix gq) /\
    Forall2 Z.le (image.Pix iq) (image.Pix ip).
Proof.
  apply (pass_is_monotone (buffer 2 1 [100; 130]) (buffer 2 1 [128; 130]));
    [luminance_by_computation | luminance_by_computation |].
  simpl. repeat constructor; lia.
Defined.

(** ** The conversion *)

Lemma neutralsKeepLevel_true : neutralsKeepLevel = true.
Proof. vm_compute. reflexivity. Qed.

Lemma luma_neutral c v : 0 <= v < 256 -> neutral c v -> luma c = v.
Proof.
  intros Hv Hc.
  pose proof neutralsKeepLevel_true as E. unfold neutralsKeepLevel in E.
  rewrite forallb_forall in E.
  assert (Hin : In v (seqZ 0 256)).
  { apply list_elem_of_In, elem_of_seqZ. lia. }
  specialize (E v Hin). apply andb_prop in E. destruct E as [E1 E2].
  destruct Hc as [-> | [-> | ->]]; [reflexivity | lia | lia].
Qed.

(** X5: gray stays gray.  A source pixel that is a [color.Gray] of
    level [v], or an opaque RGBA or NRGBA colour whose three components
    are [v], is converted to the sample [v] exactly; in particular black
    gives 0 and white gives 255. *)
Theorem conversion_keeps_gray_levels {I} {Img : image.Image I}
    (src : I) (W H x y v : Z) :
  image.Bounds src = rect W H -> 0 <= W -> 0 <= H -> W * H <= maxAlloc ->
  (forall x y, validColor (image.At src x y)) ->
  0 <= x < W -> 0 <= y < H ->
  0 <= v < 256 -> neutral (image.At src x y) v ->
  exists out,
    outcome (imageToGrayscale (Some src)) = Ok out /\
    sample out x y = Some v.
Proof.
  intros Hb HW HH Hfit Hvalid Hx Hy Hv Hc.
  destruct (imageToGrayscale_succeeds src W H Hb HW HH Hvalid Hfit)
    as (out & [Hrun _] & _ & _ & Hpix).
  exists out. split; [exact Hrun |].
  rewrite (Hpix x y Hx Hy), (luma_neutral _ v Hv Hc). reflexivity.
Qed.

Lemma conversion_keeps_gray_levels_witness :
  exists out,
    outcome (imageToGrayscale (Some (onePixel (color.OfNRGBA 90 90 90 255))))
      = Ok out /\
    sample out 0 0 = Some 90.
Proof.
  apply (conversion_keeps_gray_levels
           (onePixel (color.OfNRGBA 90 90 90 255)) 1 1 0 0 90);
    try lia.
  - reflexivity.
  - vm_compute. discriminate.
  - intros x y. simpl. lia.
  - right. right. reflexivity.
Defined.

(** X6: the conversion panics on the extents [image.NewGray] refuses.
    For a source whose bounds run from the origin to [(W, H)] it panics
    before any store, with the message of [NewGray] when [W] or [H] is
    negative or [W * H] does not fit an [int], and with the message of
    the allocation when [W * H] fits an [int] but exceeds what one
    allocation may ask for. *)
Theorem conversion_panics_on_refused_extents {I} {Img : image.Image I}
    (src : I) (W H : Z) :
  image.Bounds src = rect W H ->
  (W < 0 \/ H < 0 \/ MaxInt < W * H ->
   imageToGrayscale (Some src) =
   ([], Panic "image: NewGray Rectangle has huge or negative dimensions")) /\
  (0 <= W -> 0 <= H -> maxAlloc < W * H <= MaxInt ->
   imageToGrayscale (Some src) =
   ([], Panic "makeslice: len out of range")).
Proof.
  intros Hb. split.
  - intros Hbad. unfold imageToGrayscale. simpl. rewrite Hb.
    unfold image.NewGray, image.pixelBufferLength, image.Dx, image.Dy.
    simpl. rewrite !Z.sub_0_r.
    destruct (Z.ltb_spec W 0); [reflexivity |].
    destruct (Z.ltb_spec H 0); [reflexivity |].
    destruct (Z.ltb_spec MaxInt (W * H)); [reflexivity | lia].
  - intros HW HH Hbig. unfold imageToGrayscale. simpl. rewrite Hb.
    unfold image.NewGray, image.pixelBufferLength, make_uint8,
      image.Dx, image.Dy.
    simpl. rewrite !Z.sub_0_r.
    destruct (Z.ltb_spec W 0); [lia |].
    destruct (Z.ltb_spec H 0); [lia |].
    destruct (Z.ltb_spec MaxInt (W * H)); [lia |]. simpl.
    destruct (Z.ltb_spec (W * H) 0); [reflexivity |].
    destruct (Z.ltb_spec maxAlloc (W * H)); [reflexivity | lia].
Qed.

Lemma conversion_panics_on_refused_extents_witness :
  imageToGrayscale
    (Some (mkPicture (rect (-1) 3) (fun _ _ => color.OfRGBA 0 0 0 255))) =
  ([], Panic "image: NewGray Rectangle has huge or negative dimensions") /\
  imageToGrayscale (Some hugePicture) =
  ([], Panic "makeslice: len out of range").
Proof.
  split.
  - apply (conversion_panics_on_refused_extents
             (mkPicture (rect (-1) 3) (fun _ _ => color.OfRGBA 0 0 0 255))
             (-1) 3); [reflexivity | lia].
  - apply (conversion_panics_on_refused_extents hugePicture
             (2 ^ 31) (2 ^ 31)); [reflexivity | lia | lia |].
    pose proof maxAlloc_lt_MaxInt. unfold maxAlloc, MaxInt. lia.
Defined.

(** X7: conversion followed by the pass is a threshold on the gray level
    of the source.  The two calls complete, the result has the source's
    rectangle, and its sample at every pixel is [high] when the pixel's
    gray level exceeds 127 and [low] otherwise. *)
Theorem conversion_then_pass {I} {Img : image.Image I}
    (src : I) (W H : Z) (invert : bool) :
  image.Bounds src = rect W H -> 0 <= W -> 0 <= H -> W * H <= maxAlloc ->
  (forall x y, validColor (image.At src x y)) ->
  exists out,
    outcome (grayImg <- imageToGrayscale (Some src) ;;
             errorDiffusionDither grayImg invert) = Ok out /\
    luminance out /\
    image.Rect out = image.Bounds src /\
    forall x y, 0 <= x < W -> 0 <= y < H ->
      sample out x y =
      Some (if luma (image.At src x y) >? 127
            then high invert else low invert).
Proof.
  intros Hb HW HH Hfit Hvalid.
  destruct (imageToGrayscale_succeeds src W H Hb HW HH Hvalid Hfit)
    as (g & [Hrun _] & Hlum & Hrect & Hpix).
  exists (thresholdMap invert g).
  split.
  { rewrite (outcome_bind _ _ g Hrun).
    apply (dither_succeeds invert g Hlum). }
  split; [apply thresholdMap_luminance, Hlum |].
  split; [simpl; congruence |].
  intros x y Hx Hy.
  assert (Hw : width g = W) by (unfold width; rewrite Hrect; reflexivity).
  assert (Hh : height g = H) by (unfold height; rewrite Hrect; reflexivity).
  rewrite thresholdMap_sample by (rewrite ?Hw, ?Hh; assumption).
  rewrite (Hpix x y Hx Hy). reflexivity.
Qed.

Lemma conversion_then_pass_witness :
  exists out,
    outcome (grayImg <- imageToGrayscale
                          (Some (onePixel (color.OfRGBA 0 255 0 255))) ;;
             errorDiffusionDither grayImg true) = Ok out /\
    luminance out /\
    image.Rect out = image.Bounds (onePixel (color.OfRGBA 0 255 0 255)) /\
    forall x y, 0 <= x < 1 -> 0 <= y < 1 ->
      sample out x y =
      Some (if luma (image.At (onePixel (color.OfRGBA 0 255 0 255)) x y)
               >? 127
            then high true else low true).
Proof.
  apply (conversion_then_pass (onePixel (color.OfRGBA 0 255 0 255)) 1 1 true);
    try lia.
  - reflexivity.
  - vm_compute. discriminate.
  - intros x y. simpl. lia.
Defined.

(** ** File names *)

Lemma list_ascii_of_string_append s1 s2 :
  list_ascii_of_string (s1 ++ s2)%string =
  list_ascii_of_string s1 ++ list_ascii_of_string s2.
Proof. induction s1 as [|c s1 IH]; simpl; [reflexivity | now rewrite IH]. Qed.

Lemma string_length_zero s : String.length s = 0%nat -> s = ""%string.
Proof. destruct s; [reflexivity | discriminate]. Qed.

Lemma append_empty_r s : (s ++ "")%string = s.
Proof. induction s as [|c s IH]; simpl; [reflexivity | now rewrite IH]. Qed.

(** Walking over plain characters only moves them to the suffix. *)
Lemma extScan_plain u :
  Forall plainChar u ->
  forall before after,
    extScan (rev u ++ before) after = extScan before (u ++ after).
Proof.
  induction u as [|c u IH] using rev_ind; intros Hu before after.
  - reflexivity.
  - apply Forall_app in Hu. destruct Hu as [Hu Hc].
    inversion Hc as [|? ? [Hsep Hdot] _]; subst.
    rewrite rev_app_distr. simpl. rewrite Hsep, Hdot.
    rewrite (IH Hu), <- app_assoc. reflexivity.
Qed.

(** The scan yields nothing, or a dot followed by plain characters. *)
Lemma extScan_shape before :
  forall after,
    extScan before after = [] \/
    exists t dot, extScan before after = dot :: t ++ after /\
                  isPathSeparator dot = false /\ isDot dot = true /\
                  Forall plainChar t.
Proof.
  induction before as [|c before IH]; intros after; simpl; [left; reflexivity |].
  destruct (isPathSeparator c) eqn:Hsep; [left; reflexivity |].
  destruct (isDot c) eqn:Hdot.
  - right. exists [], c. repeat split; auto.
  - destruct (IH (c :: after)) as [E | (t & dot & E & Hs & Hd & Ht)];
      [left; exact E | right].
    exists (t ++ [c]), dot. rewrite E, <- app_assoc. repeat split; auto.
    apply Forall_app. split; [exact Ht |].
    apply Forall_singleton. split; assumption.
Qed.

(** Appending an extension to a path gives a path with that extension. *)
Lemma Ext_append_Ext a b : Ext b <> ""%string -> Ext (a ++ Ext b) = Ext b.
Proof.
  intros Hne. unfold Ext in *.
  destruct (extScan_shape (rev (list_ascii_of_string b)) [])
    as [E | (t & dot & E & Hs & Hd & Ht)].
  - rewrite E in Hne. simpl in Hne. congruence.
  - rewrite E, app_nil_r. rewrite list_ascii_of_string_append.
    rewrite list_ascii_of_string_of_list_ascii, rev_app_distr. simpl.
    rewrite <- app_assoc. simpl. rewrite (extScan_plain t Ht). simpl.
    rewrite Hs, Hd, app_nil_r. reflexivity.
Qed.

(** X8: the name of the output file.  When the program's flags name an
    input file, the configuration takes the first positional argument as
    the input and the [-i] flag as it is, and the output name has the
    extension of the [-o] value when that has one and the extension of
    the input file otherwise. *)
Theorem output_name_takes_input_extension {I} (sys : System I)
    (f : flags) (cfg : config) :
  (forall path, filepath_Ext sys path = Ext path) ->
  buildConfigFromArgs sys f = (Some cfg, None) ->
  head (flag_args f) = Some (inFile cfg) /\
  invert cfg = flag_i f /\
  Ext (outFile cfg) =
    (if (String.length (Ext (flag_o f)) =? 0)%nat
     then Ext (inFile cfg) else Ext (flag_o f)).
Proof.
  intros Hext. unfold buildConfigFromArgs.
  destruct (flag_args f) as [|inF rest]; [discriminate |].
  intros E. inversion E; subst; clear E. simpl.
  split; [reflexivity |]. split; [reflexivity |].
  rewrite !Hext.
  destruct (Nat.eqb_spec (String.length (Ext (flag_o f))) 0) as [Hz | Hnz];
    [| reflexivity].
  destruct (string_dec (Ext inF) "") as [Hin | Hin].
  - rewrite Hin, append_empty_r. apply string_length_zero, Hz.
  - apply Ext_append_Ext, Hin.
Qed.

Lemma output_name_takes_input_extension_witness :
  Ext (outFile (mkConfig "photos/cat.v2.png" "out.png" true)) = ".png"%string.
Proof.
  destruct (output_name_takes_input_extension oneFile
              (mkFlags "out" true ["photos/cat.v2.png"%string])
              (mkConfig "photos/cat.v2.png" "out.png" true))
    as (_ & _ & Hout).
  - reflexivity.
  - reflexivity.
  - exact Hout.
Defined.

(** ** Runs of the command *)

(** A run whose input loads without error, in terms of the gray buffer
    of the source. *)
Lemma main_loaded {I} {Img : image.Image I} (sys : System I)
    (f : flags) (cfg : config) (src : I) (fmt : string) (W H : Z) :
  buildConfigFromArgs sys f = (Some cfg, None) ->
  loadImage sys (inFile cfg) = (Some src, fmt, None) ->
  image.Bounds src = rect W H -> 0 <= W -> 0 <= H -> W * H <= maxAlloc ->
  (forall x y, validColor (image.At src x y)) ->
  exists g,
    outcome (imageToGrayscale (Some src)) = Ok g /\
    luminance g /\
    image.Rect g = image.Bounds src /\
    main sys f =
      match saveImage sys (thresholdMap (invert cfg) g) (outFile cfg) fmt with
      | Some e =>
          ([SaveImage (thresholdMap (invert cfg) g) (outFile cfg) fmt;
            FprintlnStderr e], Exited 1)
      | None =>
          ([SaveImage (thresholdMap (invert cfg) g) (outFile cfg) fmt],
           Returned)
      end.
Proof.
  intros Hcfg Hload Hb HW HH Hfit Hvalid.
  destruct (imageToGrayscale_succeeds src W H Hb HW HH Hvalid Hfit)
    as (g & [Hrun _] & Hlum & Hrect & _).
  exists g. split; [exact Hrun |]. split; [exact Hlum |].
  split; [congruence |].
  unfold main. rewrite Hcfg, Hload.
  rewrite (outcome_bind _ _ g Hrun).
  destruct (dither_succeeds (invert cfg) g Hlum) as [-> _].
  destruct (saveImage sys _ _ _); reflexivity.
Qed.

(** Runs that get past [flag.Parse] print the usage only for a missing
    input file. *)
Lemma main_usage_without_input {I} {Img : image.Image I}
    (sys : System I) (f : flags) :
  In FlagUsage (fst (main sys f)) <-> flag_args f = [].
Proof.
  split.
  - unfold main, buildConfigFromArgs.
    destruct (flag_args f) as [|inF rest]; [reflexivity |].
    destruct (loadImage sys _) as [[img fmt] err].
    destruct (outcome _) as [g | msg]; [destruct (saveImage sys _ _ _) |];
      destruct err; simpl; intros Hin;
      repeat (destruct Hin as [Hin | Hin]; [discriminate |]);
      destruct Hin.
  - intros E. unfold main, buildConfigFromArgs. rewrite E. simpl. auto.
Qed.

(** X9: when the usage is printed.  A run prints the usage exactly when
    [flag.Parse] ends it (help asked for: status 0; a bad flag: status
    2) or when the flags parse and no positional argument is given; in
    that last case it prints "no input image specified" and the usage,
    exits with status 1 and saves nothing. *)
Theorem usage_exactly_without_input {I} {Img : image.Image I}
    (sys : System I) (cmdline : parsing) :
  (In FlagUsage (fst (program sys cmdline)) <->
   cmdline = HelpRequested \/ (exists msg, cmdline = BadFlag msg) \/
   (exists f, cmdline = Parsed f /\ flag_args f = [])) /\
  (forall f, cmdline = Parsed f -> flag_args f = [] ->
   program sys cmdline =
   ([FprintlnFlagOutput "no input image specified"; FlagUsage], Exited 1)) /\
  (In FlagUsage (fst (program sys cmdline)) ->
   exitStatus (snd (program sys cmdline)) =
     match cmdline with
     | HelpRequested => 0
     | BadFlag _ => 2
     | Parsed _ => 1
     end /\
   forallb (fun e => negb (isSaveImage e)) (fst (program sys cmdline)) = true).
Proof.
  assert (Hnone : forall f, flag_args f = [] ->
            main sys f =
            ([FprintlnFlagOutput "no input image specified"; FlagUsage],
             Exited 1)).
  { intros f E. unfold main, buildConfigFromArgs. rewrite E. reflexivity. }
  split; [| split].
  - destruct cmdline as [| msg | f]; simpl.
    + split; [auto | intros _; auto].
    + split; [eauto | intros _; auto].
    + rewrite main_usage_without_input. split.
      * intros E. right. right. eauto.
      * intros [E | [[msg E] | (f' & E & Hf)]]; try discriminate.
        inversion E. subst. exact Hf.
  - intros f -> E. simpl. apply Hnone, E.
  - destruct cmdline as [| msg | f]; simpl; [auto | auto |].
    intros Hin. apply main_usage_without_input in Hin.
    rewrite (Hnone f Hin). split; reflexivity.
Qed.

Lemma usage_exactly_without_input_witness :
  program noFiles (Parsed (mkFlags "out" false [])) =
  ([FprintlnFlagOutput "no input image specified"; FlagUsage], Exited 1).
Proof.
  apply (proj1 (proj2 (usage_exactly_without_input noFiles
                         (Parsed (mkFlags "out" false [])))) _ eq_refl).
  reflexivity.
Defined.

(** X10: a run on a readable image saves the dithered image once.  When
    the flags name an input that loads without error, the run saves
    exactly one image, under the configured output name and the decoded
    format; that image has the source's rectangle and only the samples
    0 and 255; and the run returns normally when the save succeeds and
    otherwise prints the save's error and exits with status 1. *)
Theorem run_saves_two_level_image {I} {Img : image.Image I}
    (sys : System I) (f : flags) (cfg : config) (src : I) (fmt : string)
    (W H : Z) :
  buildConfigFromArgs sys f = (Some cfg, None) ->
  loadImage sys (inFile cfg) = (Some src, fmt, None) ->
  image.Bounds src = rect W H -> 0 <= W -> 0 <= H -> W * H <= maxAlloc ->
  (forall x y, validColor (image.At src x y)) ->
  exists out,
    outcome (grayImg <- imageToGrayscale (Some src) ;;
             errorDiffusionDither grayImg (invert cfg)) = Ok out /\
    image.Rect out = image.Bounds src /\
    Forall (fun v => v = 0 \/ v = 255) (image.Pix out) /\
    main sys f =
      match saveImage sys out (outFile cfg) fmt with
      | Some e =>
          ([SaveImage out (outFile cfg) fmt; FprintlnStderr e], Exited 1)
      | None => ([SaveImage out (outFile cfg) fmt], Returned)
      end.
Proof.
  intros Hcfg Hload Hb HW HH Hfit Hvalid.
  destruct (main_loaded sys f cfg src fmt W H Hcfg Hload Hb HW HH Hfit Hvalid)
    as (g & Hrun & Hlum & Hrect & Hmain).
  exists (thresholdMap (invert cfg) g).
  split.
  { rewrite (outcome_bind _ _ g Hrun).
    apply (dither_succeeds (invert cfg) g Hlum). }
  split; [exact Hrect |]. split; [| exact Hmain].
  simpl. apply Forall_fmap, Forall_forall. intros v _.
  apply quantize_level.
Qed.

Lemma run_saves_two_level_image_witness :
  exists out,
    main oneFile (mkFlags "out" false ["in.png"%string]) =
      ([SaveImage out "out.png" "png"], Returned) /\
    image.Pix out = [0].
Proof.
  destruct (run_saves_two_level_image oneFile
              (mkFlags "out" false ["in.png"%string])
              (mkConfig "in.png" "out.png" false)
              (onePixel (color.OfRGBA 255 0 0 255)) "png" 1 1)
    as (out & Hrun & _ & _ & Hmain); try lia.
  - reflexivity.
  - reflexivity.
  - reflexivity.
  - vm_compute. discriminate.
  - intros x y. simpl. lia.
  - exists out. split; [exact Hmain |].
    vm_compute in Hrun. inversion Hrun. reflexivity.
Defined.

(** X11: what exit status 0 means.  Whatever the system answers, a run
    that ends with exit status 0 either was asked for help, in which
    case [flag.Parse] printed the usage and nothing else happened, or it
    has, as its last visible action, saved an image under the configured
    output name, that save reported no error, and nothing was saved
    before it. *)
Theorem success_means_saved {I} {Img : image.Image I}
    (sys : System I) (cmdline : parsing) :
  exitStatus (snd (program sys cmdline)) = 0 ->
  (cmdline = HelpRequested /\ fst (program sys cmdline) = [FlagUsage]) \/
  exists f cfg before img fmt,
    cmdline = Parsed f /\
    buildConfigFromArgs sys f = (Some cfg, None) /\
    fst (program sys cmdline) = before ++ [SaveImage img (outFile cfg) fmt] /\
    saveImage sys img (outFile cfg) fmt = None /\
    forallb (fun e => negb (isSaveImage e)) before = true.
Proof.
  destruct cmdline as [| msg | f]; simpl;
    [left; split; reflexivity | discriminate |].
  unfold main.
  destruct (buildConfigFromArgs sys f) as [[cfg |] [err |]] eqn:Hcfg;
    simpl; try discriminate.
  destruct (loadImage sys (inFile cfg)) as [[img fmt] err].
  destruct (outcome _) as [g | msg]; simpl; [| discriminate].
  destruct (saveImage sys g (outFile cfg) fmt) eqn:Hsave; simpl;
    [discriminate |].
  intros _. right. exists f, cfg.
  exists (match err with Some e => [FprintlnStderr e] | None => [] end).
  exists g, fmt. repeat split; auto. destruct err; reflexivity.
Qed.

Lemma success_means_saved_witness :
  (Parsed (mkFlags "out" false ["in.png"%string]) = HelpRequested /\
   fst (program oneFile (Parsed (mkFlags "out" false ["in.png"%string])))
     = [FlagUsage]) \/
  exists f cfg before img fmt,
    Parsed (mkFlags "out" false ["in.png"%string]) = Parsed f /\
    buildConfigFromArgs oneFile f = (Some cfg, None) /\
    fst (program oneFile (Parsed (mkFlags "out" false ["in.png"%string]))) =
      before ++ [SaveImage img (outFile cfg) fmt] /\
    saveImage oneFile img (outFile cfg) fmt = None /\
    forallb (fun e => negb (isSaveImage e)) before = true.
Proof.
  apply (success_means_saved oneFile
           (Parsed (mkFlags "out" false ["in.png"%string]))).
  reflexivity.
Defined.

(** X12: the [-i] flag complements the saved image.  Two runs on the
    same readable input whose flags differ only in [-i] save, under the
    same name and format, images that turn into one another by swapping
    0 and 255 in every sample. *)
Theorem invert_flag_complements_output {I} {Img : image.Image I}
    (sys : System I) (o : string) (args : list string) (cfg : config)
    (src : I) (fmt : string) (W H : Z) :
  buildConfigFromArgs sys (mkFlags o true args) = (Some cfg, None) ->
  loadImage sys (inFile cfg) = (Some src, fmt, None) ->
  image.Bounds src = rect W H -> 0 <= W -> 0 <= H -> W * H <= maxAlloc ->
  (forall x y, validColor (image.At src x y)) ->
  exists inverted plain,
    In (SaveImage inverted (outFile cfg) fmt)
       (fst (main sys (mkFlags o true args))) /\
    In (SaveImage plain (outFile cfg) fmt)
       (fst (main sys (mkFlags o false args))) /\
    image.withPix inverted (swap <$> image.Pix inverted) = plain /\
    image.withPix plain (swap <$> image.Pix plain) = inverted.
Proof.
  intros Hcfg Hload Hb HW HH Hfit Hvalid.
  assert (Hinv : invert cfg = true /\
                 buildConfigFromArgs sys (mkFlags o false args) =
                 (Some (mkConfig (inFile cfg) (outFile cfg) false), None)).
  { revert Hcfg. unfold buildConfigFromArgs. simpl.
    destruct args as [|inF rest]; [discriminate |].
    intros E. inversion E; subst; clear E. simpl. split; reflexivity. }
  destruct Hinv as [Hi Hcfg'].
  destruct (main_loaded sys _ cfg src fmt W H Hcfg Hload Hb HW HH Hfit Hvalid)
    as (g & Hrun & Hlum & _ & Hmain).
  destruct (main_loaded sys _ _ src fmt W H Hcfg' Hload Hb HW HH Hfit Hvalid)
    as (g' & Hrun' & _ & _ & Hmain').
  assert (g' = g) by congruence. subst g'. simpl in Hmain'.
  rewrite Hi in Hmain.
  exists (thresholdMap true g), (thresholdMap false g).
  split.
  { rewrite Hmain.
    destruct (saveImage sys (thresholdMap true g) _ _); simpl; auto. }
  split.
  { rewrite Hmain'.
    destruct (saveImage sys (thresholdMap false g) _ _); simpl; auto. }
  unfold thresholdMap, image.withPix. simpl.
  split; f_equal; rewrite <- list_fmap_compose; apply list_fmap_ext;
    intros i v _; simpl; unfold quantize; destruct (v >? threshold);
    reflexivity.
Qed.

Lemma invert_flag_complements_output_witness :
  exists inverted plain,
    In (SaveImage inverted "out.png" "png")
       (fst (main oneFile (mkFlags "out" true ["in.png"%string]))) /\
    In (SaveImage plain "out.png" "png")
       (fst (main oneFile (mkFlags "out" false ["in.png"%string]))) /\
    image.withPix inverted (swap <$> image.Pix inverted) = plain /\
    image.withPix plain (swap <$> image.Pix plain) = inverted.
Proof.
  apply (invert_flag_complements_output oneFile "out" ["in.png"%string]
           (mkConfig "in.png" "out.png" true)
           (onePixel (color.OfRGBA 255 0 0 255)) "png" 1 1);
    try lia.
  - reflexivity.
  - reflexivity.
  - reflexivity.
  - vm_compute. discriminate.
  - intros x y. simpl. lia.
Defined.

(** X13: when a save succeeds.  [saveImage] reports no error exactly
    when the output file could be created, the format is "gif", "jpeg"
    or "png", and the encoder of that format reported none; the name of
    the file plays no part in the choice of the encoder. *)
Theorem save_succeeds_exactly_when {I} (sys : System I)
    (img : image.Gray) (file format : string) :
  saveImage sys img file format = None <->
  exists writer,
    os_Create sys file = inl writer /\
    ((format = "gif"%string /\ gif_Encode sys writer img = None) \/
     (format = "jpeg"%string /\ jpeg_Encode sys writer img = None) \/
     (format = "png"%string /\ png_Encode sys writer img = None)).
Proof.
  unfold saveImage. split.
  - destruct (os_Create sys file) as [writer | err]; [| discriminate].
    intros Hsave. exists writer. split; [reflexivity |].
    destruct (String.eqb_spec format "gif"); [auto |].
    destruct (String.eqb_spec format "jpeg"); [auto |].
    destruct (String.eqb_spec format "png"); [auto | discriminate].
  - intros (writer & -> & [[-> E] | [[-> E] | [-> E]]]); exact E.
Qed.

(** X14: [addErrorContrib] wraps and never clamps.  For any residual and
    weight it stores the sum of the sample and the contribution reduced
    modulo 256: a sum within [0,255] is stored as it is, a sum outside
    wraps around, and the buffer stays a luminance buffer. *)
Theorem addErrorContrib_wraps_modulo_256 p x y errVal perc v :
  luminance p -> 0 <= x < width p -> 0 <= y < height p ->
  sample p x y = Some v ->
  exists p',
    outcome (addErrorContrib p x y errVal perc) = Ok p' /\
    luminance p' /\
    let s := v + int_of_float64 (PrimFloat.mul errVal perc) in
    sample p' x y = Some (s mod 256) /\
    (0 <= s <= 255 -> sample p' x y = Some s).
Proof.
  intros Hp Hx Hy Hv. rewrite (sample_extent p x y Hp Hx Hy) in Hv.
  rewrite (addErrorContrib_extent p Hp x y Hx Hy errVal perc v Hv).
  set (s := v + int_of_float64 (PrimFloat.mul errVal perc)).
  set (p' := image.withPix p _).
  assert (Hp' : luminance p').
  { apply luminance_withPix; [exact Hp | apply length_insert |].
    apply Forall_insert; [exact (lum_range p Hp) |].
    apply Z.mod_pos_bound. lia. }
  assert (Hs : sample p' x y = Some (s mod 256)).
  { rewrite (sample_extent p' x y Hp' Hx Hy). simpl.
    apply list_lookup_insert_eq. eapply lookup_lt_Some, Hv. }
  exists p'. split; [reflexivity |]. split; [exact Hp' |].
  split; [exact Hs |].
  intros Hr. rewrite Hs, Z.mod_small by lia. reflexivity.
Qed.

Lemma addErrorContrib_wraps_modulo_256_witness :
  luminance (buffer 1 1 [250]) /\
  exists p',
    outcome (addErrorContrib (buffer 1 1 [250]) 0 0 (float64_of_Z 100)
               (PrimFloat.div (float64_of_Z 1) (float64_of_Z 2))) = Ok p' /\
    luminance p' /\
    let s := 250 + int_of_float64
                     (PrimFloat.mul (float64_of_Z 100)
                        (PrimFloat.div (float64_of_Z 1) (float64_of_Z 2))) in
    sample p' 0 0 = Some (s mod 256) /\
    (0 <= s <= 255 -> sample p' 0 0 = Some s).
Proof.
  assert (Hl : luminance (buffer 1 1 [250])) by luminance_by_computation.
  split; [exact Hl |].
  apply (addErrorContrib_wraps_modulo_256 (buffer 1 1 [250]) 0 0);
    [exact Hl | extent_by_computation | extent_by_computation | reflexivity].
Defined.
